(** * Persona Wizard front end: the task-polling client, the simulated
      inference progress and the image results panel.

    A shallow embedding of three React components of the repository:

    - [frontend/src/components/PreviewGenerator.tsx]
      (generatePreview, pollTaskStatus, cancelGeneration and the status
      section of the render function),
    - [frontend/src/components/BundleInference.tsx] (runInference and the
      functional updater of its progress interval),
    - [frontend/src/app/wizard/image/page.tsx] (the "Processing Results"
      panel).

    A component is a record of its [useState] cells together with the part
    of the browser it talks to: the table of live [setInterval] timers and
    the log of [fetch] requests.  An [async] function is cut at its
    [await]s: the part that runs up to the first [await] is one handler,
    the part that runs once the promise has settled is another handler that
    receives the settlement.  Handlers are written in a small state monad
    so that they read like the TypeScript they embed. *)

From Stdlib Require Import QArith Qminmax Qround Lqa.
From Stdlib Require Import DecimalString DecimalPos DecimalZ.
From stdpp Require Import base option list gmap strings.

(* ===================================================================== *)
(** * JavaScript values *)
(* ===================================================================== *)

(** A JavaScript string is a sequence of UTF-16 code units. *)
Abbreviation jsstring := (list N).

(** A JavaScript number.  The components only add, multiply by a constant,
    compare and take minima, so numbers are modelled by rationals. *)
Abbreviation number := Q.

Module JS.

(** An ASCII literal of the source, as code units. *)
Definition lit (s : string) : jsstring :=
  Ascii.N_of_ascii <$> String.list_ascii_of_string s.
Arguments lit s%_string : simpl never.

(** [a === b] on strings. *)
Definition strictEq (a b : jsstring) : bool := bool_decide (a = b).

(** Truthiness of a string: only the empty string is falsy. *)
Definition truthy (s : jsstring) : bool :=
  match s with [] => false | _ :: _ => true end.

(** Truthiness of an optional string field: [undefined] (and [null]) are
    falsy, and so is the empty string. *)
Definition truthy_opt (o : option jsstring) : bool :=
  match o with None => false | Some s => truthy s end.

(** [o || dflt] for an optional string [o]. *)
Definition or_else (o : option jsstring) (dflt : jsstring) : jsstring :=
  match o with
  | Some s => if truthy s then s else dflt
  | None => dflt
  end.

(** [s.startsWith(pat)]; used to define [includes] and [replace]. *)
Fixpoint startsWith (pat s : jsstring) : bool :=
  match pat, s with
  | [], _ => true
  | _ :: _, [] => false
  | p :: pat', c :: s' => N.eqb p c && startsWith pat' s'
  end.

(** [s.includes(pat)]: [pat] occurs at some position of [s]. *)
Fixpoint includes (pat s : jsstring) : bool :=
  startsWith pat s ||
  match s with
  | [] => false
  | _ :: s' => includes pat s'
  end.

(** [s.replace(pat, rep)] for a string pattern [pat] (and a replacement
    without [$] patterns): the first occurrence of [pat] in [s] is
    replaced, and [s] is returned unchanged when there is none. *)
Fixpoint str_replace (pat rep s : jsstring) : jsstring :=
  if startsWith pat s then rep ++ drop (length pat) s
  else match s with
       | [] => []
       | c :: s' => c :: str_replace pat rep s'
       end.

(** White space and line terminators of ECMAScript, as code units:
    TAB, LF, VT, FF, CR, SP, NBSP, U+1680, U+2000..U+200A, LS, PS,
    U+202F, U+205F, U+3000 and the byte order mark. *)
Definition isWhiteSpace (c : N) : bool :=
  ((9 <=? c) && (c <=? 13) || (c =? 32) || (c =? 160) || (c =? 5760)
   || (8192 <=? c) && (c <=? 8202) || (c =? 8232) || (c =? 8233)
   || (c =? 8239) || (c =? 8287) || (c =? 12288) || (c =? 65279))%N.

Fixpoint trimStart (s : jsstring) : jsstring :=
  match s with
  | [] => []
  | c :: s' => if isWhiteSpace c then trimStart s' else s
  end.

(** [s.trim()]. *)
Definition trim (s : jsstring) : jsstring :=
  reverse (trimStart (reverse (trimStart s))).

(** The decimal text of an integral number, as React puts it into a text
    node. *)
Definition showZ (z : Z) : jsstring :=
  lit (NilZero.string_of_int (Z.to_int z)).

End JS.

(* ===================================================================== *)
(** * The network, as the components see it *)
(* ===================================================================== *)

Module Http.

Inductive Method := GET | POST | DELETE.

(** The values the components put into a request body. *)
Inductive Json :=
| JString (s : jsstring)
| JBool (b : bool).

(** One call of [fetch(url, init)].  [body] is the object handed to
    [JSON.stringify], field by field. *)
Record Request := {
  method : Method;
  url : jsstring;
  headers : list (jsstring * jsstring);
  body : option (list (jsstring * Json));
}.

(** What [await fetch(..)] and the following [await response.json()]
    give: the [fetch] promise is rejected with an [Error] (a network
    failure), or it is fulfilled with a response that has an [ok] flag
    and whose [json()] either rejects with an [Error] or yields the
    parsed body. *)
Record Response (A : Type) := {
  ok : bool;
  json : jsstring + A;
}.
Arguments ok {A} _.
Arguments json {A} _.

Inductive Settled (A : Type) :=
| Rejected (message : jsstring)
| Fulfilled (response : Response A).
Arguments Rejected {A} _.
Arguments Fulfilled {A} _.

End Http.

(* ===================================================================== *)
(** * Handlers: a state monad over the component and its environment *)
(* ===================================================================== *)

Definition M (W A : Type) : Type := W -> A * W.

#[global] Instance M_ret {W} : MRet (M W) := λ A (a : A) w, (a, w).
#[global] Instance M_bind {W} : MBind (M W) :=
  λ A B (k : A -> M W B) (m : M W A) w, let (a, w') := m w in k a w'.

(** The state a handler leaves behind. *)
Definition exec {W A} (m : M W A) (w : W) : W := snd (m w).

(** Read something off the current state. *)
Definition gets {W A} (f : W -> A) : M W A := λ w, (f w, w).

(** Update the current state. *)
Definition modify {W} (f : W -> W) : M W () := λ w, ((), f w).

(* ===================================================================== *)
(** * components/PreviewGenerator.tsx *)
(* ===================================================================== *)

(** [interface PreviewTask]: the snapshot a status poll returns.  Optional
    fields ([message?: string] ...) are [None] when the JSON has none. *)
Module PreviewTask.
Record t := mk {
  task_id : jsstring;
  status : jsstring;
  progress : number;
  current_step : option jsstring;
  message : option jsstring;
  video_path : option jsstring;
  audio_path : option jsstring;
  error : option jsstring;
}.
End PreviewTask.

Module PreviewGenerator.
Import JS Http.

(** The four fields [generatePreview] reads off the JSON that answers the
    POST ([data.task_id], [data.status], [data.progress],
    [data.message]). *)
Record StartData := {
  data_task_id : jsstring;
  data_status : jsstring;
  data_progress : number;
  data_message : option jsstring;
}.

(** A live [setInterval] timer of [pollTaskStatus]: its delay in
    milliseconds and the [taskId] its callback has closed over. *)
Record Interval := {
  delay : Z;
  taskId : jsstring;
}.

(** The component: its five [useState] cells, its one prop, and the
    browser state it acts on. *)
Record World := {
  (* useState *)
  prompt : jsstring;
  isGenerating : bool;
  currentTask : option PreviewTask.t;
  error : option jsstring;
  previewVideo : option jsstring;
  (* props: is [onPreviewGenerated] given? *)
  onPreviewGenerated : bool;
  (* the arguments [onPreviewGenerated] has been called with, latest
     first *)
  previewGenerated : list jsstring;
  (* live timers, by the id [setInterval] returned *)
  intervals : gmap nat Interval;
  nextIntervalId : nat;
  (* the requests handed to [fetch], latest first *)
  fetched : list Request;
}.

(** The component as mounted: [useState('')], [useState(false)],
    [useState(null)] three times; no timer, nothing fetched. *)
Definition mount (onPreviewGenerated : bool) : World := {|
  prompt := [];
  isGenerating := false;
  currentTask := None;
  error := None;
  previewVideo := None;
  onPreviewGenerated := onPreviewGenerated;
  previewGenerated := [];
  intervals := ∅;
  nextIntervalId := 0;
  fetched := [];
|}.

(** ** State setters and browser calls *)

Definition setPrompt (v : jsstring) : M World () := modify (λ w, {|
  prompt := v; isGenerating := isGenerating w;
  currentTask := currentTask w; error := error w;
  previewVideo := previewVideo w;
  onPreviewGenerated := onPreviewGenerated w;
  previewGenerated := previewGenerated w; intervals := intervals w;
  nextIntervalId := nextIntervalId w; fetched := fetched w |}).

Definition setIsGenerating (v : bool) : M World () := modify (λ w, {|
  prompt := prompt w; isGenerating := v;
  currentTask := currentTask w; error := error w;
  previewVideo := previewVideo w;
  onPreviewGenerated := onPreviewGenerated w;
  previewGenerated := previewGenerated w; intervals := intervals w;
  nextIntervalId := nextIntervalId w; fetched := fetched w |}).

Definition setCurrentTask (v : option PreviewTask.t) : M World () :=
  modify (λ w, {|
  prompt := prompt w; isGenerating := isGenerating w;
  currentTask := v; error := error w;
  previewVideo := previewVideo w;
  onPreviewGenerated := onPreviewGenerated w;
  previewGenerated := previewGenerated w; intervals := intervals w;
  nextIntervalId := nextIntervalId w; fetched := fetched w |}).

Definition setError (v : option jsstring) : M World () := modify (λ w, {|
  prompt := prompt w; isGenerating := isGenerating w;
  currentTask := currentTask w; error := v;
  previewVideo := previewVideo w;
  onPreviewGenerated := onPreviewGenerated w;
  previewGenerated := previewGenerated w; intervals := intervals w;
  nextIntervalId := nextIntervalId w; fetched := fetched w |}).

Definition setPreviewVideo (v : option jsstring) : M World () :=
  modify (λ w, {|
  prompt := prompt w; isGenerating := isGenerating w;
  currentTask := currentTask w; error := error w;
  previewVideo := v;
  onPreviewGenerated := onPreviewGenerated w;
  previewGenerated := previewGenerated w; intervals := intervals w;
  nextIntervalId := nextIntervalId w; fetched := fetched w |}).

(** [onPreviewGenerated?.(videoPath)]: a call when the prop is given,
    nothing otherwise. *)
Definition call_onPreviewGenerated (videoPath : jsstring) : M World () :=
  modify (λ w, {|
  prompt := prompt w; isGenerating := isGenerating w;
  currentTask := currentTask w; error := error w;
  previewVideo := previewVideo w;
  onPreviewGenerated := onPreviewGenerated w;
  previewGenerated :=
    if onPreviewGenerated w then videoPath :: previewGenerated w
    else previewGenerated w;
  intervals := intervals w;
  nextIntervalId := nextIntervalId w; fetched := fetched w |}).

(** [fetch(url, init)], up to the promise it returns. *)
Definition fetch (r : Request) : M World () := modify (λ w, {|
  prompt := prompt w; isGenerating := isGenerating w;
  currentTask := currentTask w; error := error w;
  previewVideo := previewVideo w;
  onPreviewGenerated := onPreviewGenerated w;
  previewGenerated := previewGenerated w; intervals := intervals w;
  nextIntervalId := nextIntervalId w; fetched := r :: fetched w |}).

(** [setInterval(callback, delay)]: a fresh id, and a live timer under
    it. *)
Definition setInterval (i : Interval) : M World nat := λ w,
  (nextIntervalId w, {|
  prompt := prompt w; isGenerating := isGenerating w;
  currentTask := currentTask w; error := error w;
  previewVideo := previewVideo w;
  onPreviewGenerated := onPreviewGenerated w;
  previewGenerated := previewGenerated w;
  intervals := <[nextIntervalId w := i]> (intervals w);
  nextIntervalId := S (nextIntervalId w); fetched := fetched w |}).

(** [clearInterval(id)]: the timer, if live, is gone; other ids are
    untouched. *)
Definition clearInterval (id : nat) : M World () := modify (λ w, {|
  prompt := prompt w; isGenerating := isGenerating w;
  currentTask := currentTask w; error := error w;
  previewVideo := previewVideo w;
  onPreviewGenerated := onPreviewGenerated w;
  previewGenerated := previewGenerated w;
  intervals := delete id (intervals w);
  nextIntervalId := nextIntervalId w; fetched := fetched w |}).

(** ** pollTaskStatus (lines 71-101) *)

(** [pollTaskStatus(taskId)]: one [setInterval] with a delay of 2000. *)
Definition pollTaskStatus (taskId : jsstring) : M World () :=
  _ ← setInterval {| delay := 2000; taskId := taskId |};
  mret ().

(** The interval callback, up to [await fetch]:
    [fetch(`/api/preview/status-full/${taskId}`)]. *)
Definition poll_start (taskId : jsstring) : M World () :=
  fetch {| method := GET;
           url := lit "/api/preview/status-full/" ++ taskId;
           headers := []; body := None |}.

(** The [catch] block of the callback. *)
Definition poll_catch (pollInterval : nat) (message : jsstring)
  : M World () :=
  setIsGenerating false;;
  clearInterval pollInterval;;
  setError (Some message).

(** The callback once [response.json()] has given [task]. *)
Definition poll_task (pollInterval : nat) (task : PreviewTask.t)
  : M World () :=
  setCurrentTask (Some task);;
  if strictEq (PreviewTask.status task) (lit "completed") then
    setIsGenerating false;;
    clearInterval pollInterval;;
    match PreviewTask.video_path task with
    | Some video_path =>
        if truthy video_path then
          setPreviewVideo (Some video_path);;
          call_onPreviewGenerated video_path
        else mret ()
    | None => mret ()
    end
  else if strictEq (PreviewTask.status task) (lit "failed") then
    setIsGenerating false;;
    clearInterval pollInterval;;
    setError (Some (or_else (PreviewTask.error task)
                            (lit "Preview generation failed")))
  else mret ().

(** The callback from its first [await] on, given how the request
    settled. *)
Definition poll_resume (pollInterval : nat)
    (r : Settled PreviewTask.t) : M World () :=
  match r with
  | Rejected message => poll_catch pollInterval message
  | Fulfilled response =>
      if negb (ok response) then
        poll_catch pollInterval (lit "Failed to get task status")
      else
        match json response with
        | inl message => poll_catch pollInterval message
        | inr task => poll_task pollInterval task
        end
  end.

(** ** generatePreview (lines 28-69) *)

(** [generatePreview] up to [await fetch]; the result tells whether the
    function is now suspended at that [await]. *)
Definition generatePreview_start : M World bool :=
  prompt ← gets prompt;
  if negb (truthy (trim prompt)) then
    setError (Some (lit "Please enter a prompt"));;
    mret false
  else
    setIsGenerating true;;
    setError None;;
    setCurrentTask None;;
    setPreviewVideo None;;
    fetch {| method := POST;
             url := lit "/api/preview/generate-full";
             headers := [(lit "Content-Type", lit "application/json")];
             body := Some [(lit "prompt", JString (trim prompt));
                           (lit "use_sample", JBool true)] |};;
    mret true.

(** The [catch] block of [generatePreview]. *)
Definition generatePreview_catch (message : jsstring) : M World () :=
  setError (Some message);;
  setIsGenerating false.

(** [generatePreview] from its [await] on. *)
Definition generatePreview_resume (r : Settled StartData) : M World () :=
  match r with
  | Rejected message => generatePreview_catch message
  | Fulfilled response =>
      if negb (ok response) then
        generatePreview_catch (lit "Failed to start preview generation")
      else
        match json response with
        | inl message => generatePreview_catch message
        | inr data =>
            setCurrentTask (Some {|
              PreviewTask.task_id := data_task_id data;
              PreviewTask.status := data_status data;
              PreviewTask.progress := data_progress data;
              PreviewTask.current_step := None;
              PreviewTask.message := data_message data;
              PreviewTask.video_path := None;
              PreviewTask.audio_path := None;
              PreviewTask.error := None |});;
            pollTaskStatus (data_task_id data)
        end
  end.

(** ** cancelGeneration (lines 103-115) *)

(** [cancelGeneration] up to [await fetch]; the result tells whether the
    function is now suspended at that [await]. *)
Definition cancelGeneration_start : M World bool :=
  currentTask ← gets currentTask;
  match currentTask with
  | None => mret false
  | Some currentTask =>
      fetch {| method := DELETE;
               url := lit "/api/preview/tasks-full/"
                        ++ PreviewTask.task_id currentTask;
               headers := []; body := None |};;
      mret true
  end.

(** [cancelGeneration] from its [await] on.  The response is not looked
    at: only a rejected [fetch] reaches the [catch] block. *)
Definition cancelGeneration_resume (r : Settled ()) : M World () :=
  match r with
  | Rejected message => setError (Some message)
  | Fulfilled _ =>
      setIsGenerating false;;
      setCurrentTask None
  end.

(** ** The status section of the render function (lines 225-259) *)

(** The condition of lines 238 and 251:
    [currentTask.status === 'generating_video' &&
     currentTask.message?.includes('SadTalker')]. *)
Definition isSadTalkerStage (currentTask : PreviewTask.t) : bool :=
  strictEq (PreviewTask.status currentTask) (lit "generating_video") &&
  match PreviewTask.message currentTask with
  | Some message => includes (lit "SadTalker") message
  | None => false
  end.

(** The text under "SadTalker Progress:" when that panel is rendered,
    [None] when it is not. *)
Definition sadTalkerPanel (w : World) : option jsstring :=
  match currentTask w with
  | None => None
  | Some currentTask =>
      if isSadTalkerStage currentTask then
        match PreviewTask.message currentTask with
        | Some message => Some (str_replace (lit "SadTalker: ") [] message)
        | None => None
        end
      else None
  end.

(** ** The component as a transition system *)

(** What can happen to a mounted component.  A [..Resumed] event is the
    settlement of a request some earlier event has issued; settlements
    may come in any order and interleave with everything else. *)
Inductive Event :=
| PromptChanged (value : jsstring)
| GenerateClicked
| GenerateResumed (r : Settled StartData)
| IntervalFired (id : nat)
| PollResumed (pollInterval : nat) (r : Settled PreviewTask.t)
| CancelClicked
| CancelResumed (r : Settled ()).

Definition handle (e : Event) : M World () :=
  match e with
  | PromptChanged value => setPrompt value
  | GenerateClicked => _ ← generatePreview_start; mret ()
  | GenerateResumed r => generatePreview_resume r
  | IntervalFired id =>
      live ← gets intervals;
      match live !! id with
      | Some i => poll_start (taskId i)
      | None => mret ()
      end
  | PollResumed pollInterval r => poll_resume pollInterval r
  | CancelClicked => _ ← cancelGeneration_start; mret ()
  | CancelResumed r => cancelGeneration_resume r
  end.

Definition step (w : World) (e : Event) : World := exec (handle e) w.

Definition run (w : World) (es : list Event) : World := foldl step w es.


(** The poll settlements on which the callback reaches a
    [clearInterval]: status ['completed'], status ['failed'], and every
    way into the [catch] block. *)
Definition returnsStatus (s : jsstring) (r : Settled PreviewTask.t)
  : Prop :=
  ∃ response task,
    r = Fulfilled response ∧ ok response = true ∧
    json response = inr task ∧ PreviewTask.status task = s.

Definition throws (r : Settled PreviewTask.t) : Prop :=
  match r with
  | Rejected _ => True
  | Fulfilled response =>
      ok response = false ∨ ∃ message, json response = inl message
  end.

(** Does the callback reach one of its three [clearInterval]s on this
    settlement?  (Lines 84, 92 and 97.) *)
Definition stopsPolling (r : Settled PreviewTask.t) : bool :=
  match r with
  | Rejected _ => true
  | Fulfilled response =>
      negb (ok response) ||
      match json response with
      | inl _ => true
      | inr task =>
          strictEq (PreviewTask.status task) (lit "completed") ||
          strictEq (PreviewTask.status task) (lit "failed")
      end
  end.

(** The ids of live timers are ids [setInterval] has handed out. *)
Definition fresh (w : World) : Prop :=
  ∀ id, is_Some (intervals w !! id) → id < nextIntervalId w.

(** The body of the answer to the POST when [generatePreview] gets past
    its two [await]s without throwing. *)
Definition started (r : Settled StartData) : option StartData :=
  match r with
  | Rejected _ => None
  | Fulfilled response =>
      if ok response then
        match json response with
        | inl _ => None
        | inr data => Some data
        end
      else None
  end.

(** Is [e] a settled poll of timer [id] that clears it? *)
Definition stops (id : nat) (e : Event) : bool :=
  match e with
  | PollResumed pollInterval r =>
      bool_decide (pollInterval = id) && stopsPolling r
  | _ => false
  end.

(** The request a tick of a timer for [taskId] issues. *)
Definition statusRequest (taskId : jsstring) : Request :=
  {| method := GET;
     url := lit "/api/preview/status-full/" ++ taskId;
     headers := []; body := None |}.

End PreviewGenerator.

(* ===================================================================== *)
(** * components/BundleInference.tsx *)
(* ===================================================================== *)

Module BundleInference.
Import JS Http.

(** [interface Bundle]. *)
Record Bundle := {
  persona_id : jsstring;
  name : jsstring;
  description : jsstring;
  size_bytes : number;
  created_at : jsstring;
}.

(** [interface InferenceResult]. *)
Record InferenceResult := {
  result_status : jsstring;
  result_persona_id : jsstring;
  result_prompt : jsstring;
  video_url : jsstring;
  duration : number;
  fps : number;
  size_px : number;
  frame_count : number;
  stdout : jsstring;
  stderr : jsstring;
}.

(** The JSON that answers the inference POST: an [InferenceResult], or
    an error object with an optional [detail]. *)
Inductive Body :=
| ResultJson (result : InferenceResult)
| ErrorJson (detail : option jsstring).

(** [errorData.detail] *)
Definition detail_of (b : Body) : option jsstring :=
  match b with
  | ResultJson _ => None
  | ErrorJson detail => detail
  end.

(** [status: 'idle' | 'running' | 'completed' | 'error'] *)
Inductive Status := idle | running | completed | error_.

#[global] Instance Status_eq_dec : EqDecision Status.
Proof. solve_decision. Defined.

(** [interface InferenceProgress]. *)
Record InferenceProgress := {
  status : Status;
  progress : number;
  message : jsstring;
  result : option Body;
  error : option jsstring;
}.

(** The cells of the component that [runInference] reads or writes, the
    live timers (id and delay) and the requests handed to [fetch]. *)
Record World := {
  selectedBundle : option Bundle;
  prompt : jsstring;
  inferenceProgress : InferenceProgress;
  videoLoading : bool;
  intervals : gmap nat Z;
  nextIntervalId : nat;
  fetched : list Request;
}.

Definition mount : World := {|
  selectedBundle := None;
  prompt := [];
  inferenceProgress :=
    {| status := idle; progress := 0; message := [];
       result := None; error := None |};
  videoLoading := false;
  intervals := ∅;
  nextIntervalId := 0;
  fetched := [];
|}.

Definition setSelectedBundle (v : option Bundle) : M World () :=
  modify (λ w, {|
  selectedBundle := v; prompt := prompt w;
  inferenceProgress := inferenceProgress w;
  videoLoading := videoLoading w; intervals := intervals w;
  nextIntervalId := nextIntervalId w; fetched := fetched w |}).

Definition setPrompt (v : jsstring) : M World () := modify (λ w, {|
  selectedBundle := selectedBundle w; prompt := v;
  inferenceProgress := inferenceProgress w;
  videoLoading := videoLoading w; intervals := intervals w;
  nextIntervalId := nextIntervalId w; fetched := fetched w |}).

(** [setInferenceProgress(prev => f(prev))]; [setInferenceProgress(v)] is
    the case of a constant [f]. *)
Definition setInferenceProgress
    (f : InferenceProgress -> InferenceProgress) : M World () :=
  modify (λ w, {|
  selectedBundle := selectedBundle w; prompt := prompt w;
  inferenceProgress := f (inferenceProgress w);
  videoLoading := videoLoading w; intervals := intervals w;
  nextIntervalId := nextIntervalId w; fetched := fetched w |}).

Definition setVideoLoading (v : bool) : M World () := modify (λ w, {|
  selectedBundle := selectedBundle w; prompt := prompt w;
  inferenceProgress := inferenceProgress w;
  videoLoading := v; intervals := intervals w;
  nextIntervalId := nextIntervalId w; fetched := fetched w |}).

Definition fetch (r : Request) : M World () := modify (λ w, {|
  selectedBundle := selectedBundle w; prompt := prompt w;
  inferenceProgress := inferenceProgress w;
  videoLoading := videoLoading w; intervals := intervals w;
  nextIntervalId := nextIntervalId w; fetched := r :: fetched w |}).

Definition setInterval (delay : Z) : M World nat := λ w,
  (nextIntervalId w, {|
  selectedBundle := selectedBundle w; prompt := prompt w;
  inferenceProgress := inferenceProgress w;
  videoLoading := videoLoading w;
  intervals := <[nextIntervalId w := delay]> (intervals w);
  nextIntervalId := S (nextIntervalId w); fetched := fetched w |}).

Definition clearInterval (id : nat) : M World () := modify (λ w, {|
  selectedBundle := selectedBundle w; prompt := prompt w;
  inferenceProgress := inferenceProgress w;
  videoLoading := videoLoading w;
  intervals := delete id (intervals w);
  nextIntervalId := nextIntervalId w; fetched := fetched w |}).

(** ** The progress interval (lines 83-98) *)

(** The functional updater handed to [setInferenceProgress] on every
    tick; [random] is the value [Math.random()] returned, a number in
    [0, 1). *)
Definition progressUpdater (random : number) (prev : InferenceProgress)
  : InferenceProgress :=
  match status prev with
  | running =>
      let newProgress := Qmin (progress prev + random * 15) 90 in
      let message :=
        if Qlt_le_dec newProgress 20 then lit "Loading bundle..."
        else if Qlt_le_dec newProgress 40 then lit "Generating text..."
        else if Qlt_le_dec newProgress 60 then lit "Synthesizing voice..."
        else if Qlt_le_dec newProgress 80
             then lit "Generating lip-sync video..."
        else lit "Finalizing output..." in
      {| status := status prev; progress := newProgress;
         message := message; result := result prev;
         error := error prev |}
  | _ => prev
  end.

(** ** runInference (lines 72-135) *)

(** [runInference] up to [await fetch]; the result is the id of the
    progress interval when the function is now suspended there. *)
Definition runInference_start : M World (option nat) :=
  selectedBundle ← gets selectedBundle;
  prompt ← gets prompt;
  match selectedBundle with
  | None => mret None
  | Some selectedBundle =>
      if negb (truthy (trim prompt)) then mret None
      else
        setInferenceProgress (λ _,
          {| status := running; progress := 0;
             message := lit "Starting inference...";
             result := None; error := None |});;
        progressInterval ← setInterval 500;
        fetch {| method := POST;
                 url := lit "http://localhost:8000/wizard/build/"
                          ++ persona_id selectedBundle
                          ++ lit "/inference";
                 headers := [(lit "Content-Type",
                              lit "application/json")];
                 body := Some [(lit "prompt", JString (trim prompt))] |};;
        mret (Some progressInterval)
  end.

(** The [catch] block. *)
Definition runInference_catch (message : jsstring) : M World () :=
  setInferenceProgress (λ _,
    {| status := error_; progress := 0;
       message := lit "Inference failed";
       result := None; error := Some message |}).

(** [runInference] from its [await fetch] on.  A rejected [fetch] jumps
    to the [catch] block past [clearInterval]. *)
Definition runInference_resume (progressInterval : nat)
    (r : Settled Body) : M World () :=
  match r with
  | Rejected message => runInference_catch message
  | Fulfilled response =>
      clearInterval progressInterval;;
      match json response with
      | inl message => runInference_catch message
      | inr body =>
          if negb (ok response) then
            runInference_catch
              (or_else (detail_of body) (lit "Inference failed"))
          else
            setInferenceProgress (λ _,
              {| status := completed; progress := 100;
                 message := lit "Inference completed!";
                 result := Some body; error := None |});;
            setVideoLoading true
      end
  end.

(** [Math.round(inferenceProgress.progress)], the percentage the
    progress bar prints (line 300). *)
Definition displayedPercent (p : InferenceProgress) : Z :=
  Qfloor (progress p + (1 # 2))%Q.

(** ** The component as a transition system *)

Inductive Event :=
| BundleSelected (bundle : Bundle)
| PromptChanged (value : jsstring)
| RunClicked
| IntervalFired (id : nat) (random : number)
| RunResumed (progressInterval : nat) (r : Settled Body).

Definition handle (e : Event) : M World () :=
  match e with
  | BundleSelected bundle => setSelectedBundle (Some bundle)
  | PromptChanged value => setPrompt value
  | RunClicked => _ ← runInference_start; mret ()
  | IntervalFired id random =>
      live ← gets intervals;
      match live !! id with
      | Some _ => setInferenceProgress (progressUpdater random)
      | None => mret ()
      end
  | RunResumed progressInterval r => runInference_resume progressInterval r
  end.

(** [Math.random()] returns a number in [0, 1). *)
Definition wellFormed (e : Event) : Prop :=
  match e with
  | IntervalFired _ random => (0 <= random)%Q ∧ (random < 1)%Q
  | _ => True
  end.

Definition step (w : World) (e : Event) : World := exec (handle e) w.

Definition run (w : World) (es : list Event) : World := foldl step w es.

(** A state is terminal once the run has completed or failed. *)
Definition terminal (p : InferenceProgress) : Prop :=
  status p = completed ∨ status p = error_.

Definition isInteger (q : number) : Prop := ∃ z : Z, (q == inject_Z z)%Q.

(** The simulated progress lies within 0 and 100: it is 0 before the first
    run, at most 90 while a run is going, and 100 or 0 afterwards. *)
Definition inRange (p : InferenceProgress) : Prop :=
  (0 <= progress p)%Q ∧ (progress p <= 100)%Q ∧
  (status p = running → (progress p <= 90)%Q) ∧
  (status p = idle → (progress p <= 0)%Q).

(** Lines 258 and 279: the "Run Inference" button is rendered once a
    bundle is selected, and it is
    [disabled={!prompt.trim() || inferenceProgress.status === 'running'}]. *)
Definition runButtonEnabled (w : World) : bool :=
  bool_decide (is_Some (selectedBundle w)) &&
  truthy (trim (prompt w)) &&
  negb (bool_decide (status (inferenceProgress w) = running)).

(** The events the rendered component lets through: a click needs an
    enabled button. *)
Definition enabled (w : World) (e : Event) : Prop :=
  match e with
  | RunClicked => runButtonEnabled w = true
  | _ => True
  end.

(** The ticks of a progress interval. *)
Definition isTick (e : Event) : Prop :=
  match e with
  | IntervalFired _ _ => True
  | _ => False
  end.

End BundleInference.

(* ===================================================================== *)
(** * app/wizard/image/page.tsx: the "Processing Results" panel *)
(* ===================================================================== *)

Module ImageUploadPage.
Import JS.

(** [interface ImageUploadResponse] (without the optional [face_info],
    which the two size lines do not read). *)
Record ImageUploadResponse := {
  status : jsstring;
  image_id : jsstring;
  session_id : jsstring;
  face_detected : bool;
  original_size : Z * Z;
  output_size : Z * Z;
  files_original : jsstring;
  files_face_ref : jsstring;
}.

(** The children of a JSX element: text and numbers. *)
Inductive Child :=
| Num (n : Z)
| Text (s : jsstring).

(** The multiplication sign U+00D7 of the source, between two spaces. *)
Definition times : jsstring := lit " " ++ [215%N] ++ lit " ".

(** Lines 449-451:
    [{result.original_size[1]} × {result.original_size[0]} pixels]. *)
Definition originalSizeLine (result : ImageUploadResponse) : list Child :=
  [Num (snd (original_size result)); Text times;
   Num (fst (original_size result)); Text (lit " pixels")].

(** Lines 456-458:
    [{result.output_size[0]} × {result.output_size[1]} pixels]. *)
Definition preparedSizeLine (result : ImageUploadResponse) : list Child :=
  [Num (fst (output_size result)); Text times;
   Num (snd (output_size result)); Text (lit " pixels")].

(** The text of an element, as [getByText] matches it. *)
Definition textContent (children : list Child) : jsstring :=
  concat ((λ c, match c with Num n => showZ n | Text s => s end)
            <$> children).

(** The numbers of a line, left to right. *)
Definition numbers (children : list Child) : list Z :=
  omap (λ c, match c with Num n => Some n | Text _ => None end) children.

End ImageUploadPage.

(* ===================================================================== *)
(** * The words of the specification *)
(* ===================================================================== *)

(** Two readings of spec.md that are compared with the code below. *)
Module Spec.
Import JS.

(** "the message with the prefix removed": a string that starts with
    [prefix] loses it, any other string is left as it is. *)
Definition withoutPrefix (prefix s : jsstring) : jsstring :=
  if startsWith prefix s then drop (length prefix) s else s.

(** "the task's populated error field, with the client substituting a
    default message only when the error field is absent". *)
Definition failureMessage (task : PreviewTask.t) : jsstring :=
  match PreviewTask.error task with
  | Some e => e
  | None => lit "Preview generation failed"
  end.

End Spec.

(* ===================================================================== *)
(** * Sample data *)
(* ===================================================================== *)

(** Concrete answers of the server and concrete runs of the components,
    used to exercise the statements below. *)
Module Samples.
Import JS Http.

Definition task (status : jsstring) (progress : number)
    (message video_path audio_path error : option jsstring)
  : PreviewTask.t :=
  {| PreviewTask.task_id := lit "t1";
     PreviewTask.status := status;
     PreviewTask.progress := progress;
     PreviewTask.current_step := None;
     PreviewTask.message := message;
     PreviewTask.video_path := video_path;
     PreviewTask.audio_path := audio_path;
     PreviewTask.error := error |}.

Definition completedTask : PreviewTask.t :=
  task (lit "completed") 100 None
       (Some (lit "/out/v.mp4")) (Some (lit "/out/a.wav")) None.

Definition completedWithoutVideo : PreviewTask.t :=
  task (lit "completed") 100 None None None None.

Definition failedTask : PreviewTask.t :=
  task (lit "failed") 50 None None None
       (Some (lit "Video generation failed")).

Definition failedWithEmptyError : PreviewTask.t :=
  task (lit "failed") 50 None None None (Some []).

Definition cancelledTask : PreviewTask.t :=
  task (lit "cancelled") 30 None None None None.

Definition sadTalkerTask : PreviewTask.t :=
  task (lit "generating_video") 60
       (Some (lit "SadTalker: Rendering frames 12/48")) None None None.

Definition sadTalkerInsideTask : PreviewTask.t :=
  task (lit "generating_video") 60
       (Some (lit "Stage 3/4 - SadTalker: Rendering")) None None None.

(** A fulfilled request with an ok response that parses to [a]. *)
Definition answered {A} (a : A) : Settled A :=
  Fulfilled {| ok := true; json := inr a |}.

(** A request rejected by the network. *)
Definition networkError {A} : Settled A :=
  Rejected (lit "Failed to fetch").

Definition startData : PreviewGenerator.StartData :=
  {| PreviewGenerator.data_task_id := lit "t1";
     PreviewGenerator.data_status := lit "started";
     PreviewGenerator.data_progress := 0;
     PreviewGenerator.data_message := Some (lit "Starting") |}.

(** The user types a prompt and clicks "Generate Preview". *)
Definition clicked : list PreviewGenerator.Event :=
  [PreviewGenerator.PromptChanged (lit " Hello world ");
   PreviewGenerator.GenerateClicked].

(** ... and the server answers with task [t1]: timer 0 is polling. *)
Definition generating : list PreviewGenerator.Event :=
  clicked ++ [PreviewGenerator.GenerateResumed (answered startData)].

Definition pollingWorld : PreviewGenerator.World :=
  PreviewGenerator.run (PreviewGenerator.mount true) generating.

Definition bundle : BundleInference.Bundle :=
  {| BundleInference.persona_id := lit "p1";
     BundleInference.name := lit "Ada";
     BundleInference.description := lit "A sample persona";
     BundleInference.size_bytes := 1024;
     BundleInference.created_at := lit "2024-01-01T00:00:00Z" |}.

(** A bundle is selected, a prompt typed and "Run Inference" clicked:
    progress interval 0 is live. *)
Definition inferring : list BundleInference.Event :=
  [BundleInference.BundleSelected bundle;
   BundleInference.PromptChanged (lit "Hello world");
   BundleInference.RunClicked].

(** ... and the interval ticks once, with [Math.random()] giving 0.5. *)
Definition tickedOnce : list BundleInference.Event :=
  inferring ++ [BundleInference.IntervalFired 0 (1 # 2)].

(** ... and the request is then rejected by the network. *)
Definition inferenceFailed : list BundleInference.Event :=
  tickedOnce ++ [BundleInference.RunResumed 0 networkError].

(** The answer of the image upload in the test "handles successful image
    upload". *)
Definition uploaded : ImageUploadPage.ImageUploadResponse :=
  {| ImageUploadPage.status := lit "ok";
     ImageUploadPage.image_id := lit "test-image-id";
     ImageUploadPage.session_id := lit "test-session-id";
     ImageUploadPage.face_detected := true;
     ImageUploadPage.original_size := (800, 600)%Z;
     ImageUploadPage.output_size := (512, 512)%Z;
     ImageUploadPage.files_original := lit "/data/uploads/test.png";
     ImageUploadPage.files_face_ref :=
       lit "/data/portraits/test_face.png" |}.

End Samples.

(* ===================================================================== *)
(** * components/PreviewGenerator.tsx: what the render function shows *)
(* ===================================================================== *)

Module PreviewGeneratorView.
Import JS Http PreviewGenerator.

(** The three icons of [getStatusIcon]. *)
Inductive Icon := RefreshCw | CheckCircle | AlertCircle.

(** [getStatusIcon] (lines 128-145): a [switch] on [currentTask.status]. *)
Definition getStatusIcon (w : World) : option Icon :=
  match currentTask w with
  | None => None
  | Some currentTask =>
      let status := PreviewTask.status currentTask in
      if strictEq status (lit "started")
         || strictEq status (lit "generating_text")
         || strictEq status (lit "generating_speech")
         || strictEq status (lit "generating_video")
         || strictEq status (lit "finalizing")
      then Some RefreshCw
      else if strictEq status (lit "completed") then Some CheckCircle
      else if strictEq status (lit "failed") then Some AlertCircle
      else None
  end.

(** [getStatusMessage] (lines 147-173): the message of the backend when
    there is one, a text chosen by the status otherwise. *)
Definition getStatusMessage (w : World) : jsstring :=
  match currentTask w with
  | None => lit "Ready to generate preview"
  | Some currentTask =>
      if truthy_opt (PreviewTask.message currentTask) then
        default [] (PreviewTask.message currentTask)
      else
        let status := PreviewTask.status currentTask in
        if strictEq status (lit "started")
        then lit "Starting preview generation..."
        else if strictEq status (lit "generating_text")
        then lit "Generating text with LLM..."
        else if strictEq status (lit "generating_speech")
        then lit "Synthesizing speech with TTS..."
        else if strictEq status (lit "generating_video")
        then lit "Generating video with SadTalker..."
        else if strictEq status (lit "finalizing")
        then lit "Finalizing preview..."
        else if strictEq status (lit "completed")
        then lit "Preview generated successfully!"
        else if strictEq status (lit "failed")
        then or_else (PreviewTask.error currentTask)
                     (lit "Preview generation failed")
        else lit "Processing..."
  end.

(** Line 200: [disabled={isGenerating || !prompt.trim()}] on the
    "Generate Preview" button. *)
Definition generateDisabled (w : World) : bool :=
  isGenerating w || negb (truthy (trim (prompt w))).

(** Line 211: the "Cancel" button is rendered under [isGenerating &&]. *)
Definition cancelShown (w : World) : bool := isGenerating w.

(** The events the rendered component lets through: a click needs a
    button that is there and enabled. *)
Definition enabled (w : World) (e : Event) : Prop :=
  match e with
  | GenerateClicked => generateDisabled w = false
  | CancelClicked => cancelShown w = true
  | _ => True
  end.

(** The request of [generatePreview] for the prompt typed (lines 40-49). *)
Definition generateRequest (prompt : jsstring) : Request :=
  {| method := POST;
     url := lit "/api/preview/generate-full";
     headers := [(lit "Content-Type", lit "application/json")];
     body := Some [(lit "prompt", JString (trim prompt));
                   (lit "use_sample", JBool true)] |}.

(** The request of [cancelGeneration] for a task id (lines 107-109). *)
Definition cancelRequest (task_id : jsstring) : Request :=
  {| method := DELETE;
     url := lit "/api/preview/tasks-full/" ++ task_id;
     headers := []; body := None |}.

(** The task ids an event sequence has been given by the server: the
    [task_id]s of the answered POSTs. *)
Definition startedIds (es : list Event) : list jsstring :=
  omap (λ e, match e with
             | GenerateResumed r => data_task_id <$> started r
             | _ => None
             end) es.

End PreviewGeneratorView.

(* ===================================================================== *)
(** * components/BundleInference.tsx: requests, stage texts, loadBundles *)
(* ===================================================================== *)

Module BundleInferenceView.
Import JS Http BundleInference.

(** The request of [runInference] (lines 100-106). *)
Definition inferenceRequest (bundle : Bundle) (prompt : jsstring)
  : Request :=
  {| method := POST;
     url := lit "http://localhost:8000/wizard/build/"
              ++ persona_id bundle ++ lit "/inference";
     headers := [(lit "Content-Type", lit "application/json")];
     body := Some [(lit "prompt", JString (trim prompt))] |}.

(** The state [runInference] sets before it starts the interval
    (lines 76-80). *)
Definition startingProgress : InferenceProgress :=
  {| status := running; progress := 0;
     message := lit "Starting inference...";
     result := None; error := None |}.

(** The five texts of the [if] chain of lines 90-94, in the order of
    their progress bands. *)
Definition stageTexts : list jsstring :=
  [lit "Loading bundle..."; lit "Generating text...";
   lit "Synthesizing voice..."; lit "Generating lip-sync video...";
   lit "Finalizing output..."].

(** The band of a progress value: bands are 20 wide, the last one is
    open-ended. *)
Definition band (progress : number) : nat :=
  Z.to_nat (Z.min 4 (Qfloor (progress / 20))).

(** Is [e] the fulfilled settlement of the run that owns interval [id]? *)
Definition fulfils (id : nat) (e : Event) : bool :=
  match e with
  | RunResumed progressInterval (Fulfilled _) =>
      bool_decide (progressInterval = id)
  | _ => false
  end.

End BundleInferenceView.

(** [loadBundles] (lines 54-70) and the two cells it writes. *)
Module BundleList.
Import JS Http.

Record World := {
  bundles : list BundleInference.Bundle;
  loading : bool;
  (* what [console.error] has been called with, latest first *)
  logged : list jsstring;
  fetched : list Request;
}.

(** [useState<Bundle[]>([])], [useState(false)]. *)
Definition mount : World :=
  {| bundles := []; loading := false; logged := []; fetched := [] |}.

Definition setBundles (v : list BundleInference.Bundle) : M World () :=
  modify (λ w, {| bundles := v; loading := loading w;
                  logged := logged w; fetched := fetched w |}).

Definition setLoading (v : bool) : M World () :=
  modify (λ w, {| bundles := bundles w; loading := v;
                  logged := logged w; fetched := fetched w |}).

(** [console.error('Failed to load bundles:', error)] *)
Definition console_error (message : jsstring) : M World () :=
  modify (λ w, {| bundles := bundles w; loading := loading w;
                  logged := message :: logged w; fetched := fetched w |}).

Definition fetch (r : Request) : M World () :=
  modify (λ w, {| bundles := bundles w; loading := loading w;
                  logged := logged w; fetched := r :: fetched w |}).

(** [loadBundles] up to [await fetch]. *)
Definition loadBundles_start : M World () :=
  setLoading true;;
  fetch {| method := GET;
           url := lit "http://localhost:8000/wizard/build/";
           headers := []; body := None |}.

(** [loadBundles] from its [await] on.  The body of the answer is an
    object whose [bundles] field may be missing; [data.bundles || []]
    then gives the empty list.  The [finally] block runs on every path. *)
Definition loadBundles_resume
    (r : Settled (option (list BundleInference.Bundle))) : M World () :=
  match r with
  | Rejected message => console_error message
  | Fulfilled response =>
      if negb (ok response) then console_error (lit "Failed to load bundles")
      else
        match json response with
        | inl message => console_error message
        | inr data => setBundles (default [] data)
        end
  end;;
  setLoading false.

End BundleList.

(* ===================================================================== *)
(** * contexts/WizardContext.tsx *)
(* ===================================================================== *)

(** The store of uploaded artifacts the wizard pages share.  The setters
    take [metadata: any]; [Any] stands for that type. *)
Module WizardContext.
Import JS.

Section Artifacts.
Context {Any : Type}.

(** [interface UploadedArtifacts]: six optional fields. *)
Record UploadedArtifacts := {
  textId : option jsstring;
  imageId : option jsstring;
  voiceId : option jsstring;
  textMetadata : option Any;
  imageMetadata : option Any;
  voiceMetadata : option Any;
}.

(** [useState<UploadedArtifacts>({})] and [clearArtifacts]:
    [setArtifacts({})]. *)
Definition clearArtifacts : UploadedArtifacts :=
  {| textId := None; imageId := None; voiceId := None;
     textMetadata := None; imageMetadata := None; voiceMetadata := None |}.

(** [setArtifacts(prev => ({...prev, textId, textMetadata: metadata}))] *)
Definition setTextArtifact (id : jsstring) (metadata : Any)
    (prev : UploadedArtifacts) : UploadedArtifacts :=
  {| textId := Some id; imageId := imageId prev; voiceId := voiceId prev;
     textMetadata := Some metadata; imageMetadata := imageMetadata prev;
     voiceMetadata := voiceMetadata prev |}.

Definition setImageArtifact (id : jsstring) (metadata : Any)
    (prev : UploadedArtifacts) : UploadedArtifacts :=
  {| textId := textId prev; imageId := Some id; voiceId := voiceId prev;
     textMetadata := textMetadata prev; imageMetadata := Some metadata;
     voiceMetadata := voiceMetadata prev |}.

Definition setVoiceArtifact (id : jsstring) (metadata : Any)
    (prev : UploadedArtifacts) : UploadedArtifacts :=
  {| textId := textId prev; imageId := imageId prev; voiceId := Some id;
     textMetadata := textMetadata prev; imageMetadata := imageMetadata prev;
     voiceMetadata := Some metadata |}.

(** [!!(artifacts.textId || artifacts.imageId || artifacts.voiceId)] *)
Definition hasArtifacts (artifacts : UploadedArtifacts) : bool :=
  truthy_opt (textId artifacts) || truthy_opt (imageId artifacts)
  || truthy_opt (voiceId artifacts).

(** The calls a page can make on the store. *)
Inductive Call :=
| SetText (id : jsstring) (metadata : Any)
| SetImage (id : jsstring) (metadata : Any)
| SetVoice (id : jsstring) (metadata : Any)
| Clear.

Definition call (artifacts : UploadedArtifacts) (c : Call)
  : UploadedArtifacts :=
  match c with
  | SetText id metadata => setTextArtifact id metadata artifacts
  | SetImage id metadata => setImageArtifact id metadata artifacts
  | SetVoice id metadata => setVoiceArtifact id metadata artifacts
  | Clear => clearArtifacts
  end.

Definition calls (artifacts : UploadedArtifacts) (cs : list Call)
  : UploadedArtifacts := foldl call artifacts cs.

(** Does a call write the image slot? *)
Definition writesImage (c : Call) : bool :=
  match c with
  | SetImage _ _ | Clear => true
  | _ => false
  end.

End Artifacts.
Arguments UploadedArtifacts : clear implicits.
Arguments Call : clear implicits.

End WizardContext.

(* ===================================================================== *)
(** * app/wizard/image/page.tsx: uploading and the processing steps *)
(* ===================================================================== *)

(** [uploadFile], [createSampleImage], [handleFileSelect], [handleDrop] and
    the simulated processing steps.  One call of [uploadFile] or
    [createSampleImage] runs two things side by side: the request, and
    [simulateProcessingProgress] with its six timers; the function goes on
    past [await progressPromise] only when both are through.  Each call in
    flight is an [Upload] in the world.  ([handleArtifactSelect] and the
    two cells only it writes are left out.) *)
Module ImageUploadFlow.
Import JS.

(** [status: 'pending' | 'processing' | 'completed' | 'error'] *)
Inductive StepStatus := pending | processing | completed | error_.

#[global] Instance StepStatus_eq_dec : EqDecision StepStatus.
Proof. solve_decision. Defined.

(** [interface ProcessingStep]. *)
Record ProcessingStep := {
  id : jsstring;
  title : jsstring;
  description : jsstring;
  status : StepStatus;
}.

(** The six steps of [initializeProcessingSteps] (lines 66-103). *)
Definition steps : list ProcessingStep :=
  [ {| id := lit "upload"; title := lit "Uploading Image";
       description :=
         lit "Sending your image to the server for processing...";
       status := pending |};
    {| id := lit "validation"; title := lit "Validating Image";
       description := lit "Checking image format, size, and quality...";
       status := pending |};
    {| id := lit "face_detection"; title := lit "Detecting Face";
       description :=
         lit "Using AI to locate and analyze facial features...";
       status := pending |};
    {| id := lit "alignment"; title := lit "Aligning Face";
       description :=
         lit "Positioning and orienting the face for optimal results...";
       status := pending |};
    {| id := lit "preparation"; title := lit "Preparing for Lip-sync";
       description :=
         lit "Resizing and optimizing the image for video generation...";
       status := pending |};
    {| id := lit "finalization"; title := lit "Finalizing";
       description :=
         lit "Saving processed image and generating preview...";
       status := pending |} ].

(** [Object.entries(delays)] (lines 123-132): the step ids in insertion
    order, with their delays in milliseconds. *)
Definition delays : list (jsstring * Z) :=
  [(lit "upload", 500%Z); (lit "validation", 800%Z);
   (lit "face_detection", 1500%Z); (lit "alignment", 1000%Z);
   (lit "preparation", 800%Z); (lit "finalization", 600%Z)].

(** What the page reads of a [File]. *)
Record File := {
  file_name : jsstring;
  file_type : jsstring;
}.

(** What the page reads of an [Artifact] (lines 40-50): its [id], its
    [type] and its [name]. *)
Record Artifact := {
  artifact_id : jsstring;
  artifact_type : jsstring;
  artifact_name : jsstring;
}.

Inductive FormValue :=
| FormString (s : jsstring)
| FormFile (f : File).

(** One call of [fetch]: [fetch(url, {method: 'POST', body: formData})],
    or [fetch(url)], a GET without a body. *)
Record Request := {
  url : jsstring;
  method : Http.Method;
  formData : option (list (jsstring * FormValue));
}.

(** The object handed to [setImageArtifact] (lines 184-188). *)
Record ImageMetadata := {
  meta_face_detected : bool;
  meta_original_size : Z * Z;
  meta_output_size : Z * Z;
}.

(** How the request of an upload settles: [fetch] rejects; or the
    response is not ok and [response.json()] rejects or gives an error
    object with an optional [detail]; or the response is ok and
    [response.json()] rejects or gives the [ImageUploadResponse]. *)
Inductive Settled :=
| Rejected (message : jsstring)
| NotOk (json : jsstring + option jsstring)
| Ok (json : jsstring + ImageUploadPage.ImageUploadResponse).

(** How the first request of [handleArtifactSelect] settles: [fetch]
    rejects; or the response is not ok; or it is ok and
    [response.blob()] rejects or gives a blob, of which the function
    reads the [type]. *)
Inductive Fetched :=
| FetchRejected (message : jsstring)
| FetchNotOk
| FetchOk (blob : jsstring + jsstring).

(** Which function is running. *)
Inductive Source := uploadFile | createSampleImage | handleArtifactSelect.

(** Where the function stands with its request. *)
Inductive RequestState :=
| Awaiting
| Holding (data : ImageUploadPage.ImageUploadResponse)
| Returned
| Fetching (artifact : Artifact).

(** A call in flight: the [currentStep] its closure has captured, the
    number of simulation timers that have fired, and the state of its
    request ([Holding data] while it waits at [await progressPromise],
    [Fetching artifact] while [handleArtifactSelect] waits for the file of
    the artifact, before its upload). *)
Record Upload := {
  source : Source;
  capturedStep : option jsstring;
  fired : nat;
  request : RequestState;
}.

Record World := {
  (* useState *)
  uploading : bool;
  result : option ImageUploadPage.ImageUploadResponse;
  error : option jsstring;
  previewUrl : option jsstring;
  processingSteps : list ProcessingStep;
  currentStep : option jsstring;
  (* the wizard context *)
  artifacts : WizardContext.UploadedArtifacts ImageMetadata;
  (* the calls in flight, and the requests handed to [fetch] *)
  uploads : gmap nat Upload;
  nextUpload : nat;
  fetched : list Request;
  (* useState, for the artifact selector *)
  selectedArtifact : option Artifact;
  showArtifactSelector : bool;
}.

Definition mount : World := {|
  uploading := false; result := None; error := None; previewUrl := None;
  processingSteps := []; currentStep := None;
  artifacts := WizardContext.clearArtifacts;
  uploads := ∅; nextUpload := 0; fetched := [];
  selectedArtifact := None; showArtifactSelector := false;
|}.

Definition setUploading (v : bool) : M World () := modify (λ w, {|
  uploading := v; result := result w; error := error w;
  previewUrl := previewUrl w; processingSteps := processingSteps w;
  currentStep := currentStep w; artifacts := artifacts w;
  uploads := uploads w; nextUpload := nextUpload w;
  fetched := fetched w;
  selectedArtifact := selectedArtifact w;
  showArtifactSelector := showArtifactSelector w |}).

Definition setResult (v : option ImageUploadPage.ImageUploadResponse) : M World () := modify (λ w, {|
  uploading := uploading w; result := v; error := error w;
  previewUrl := previewUrl w; processingSteps := processingSteps w;
  currentStep := currentStep w; artifacts := artifacts w;
  uploads := uploads w; nextUpload := nextUpload w;
  fetched := fetched w;
  selectedArtifact := selectedArtifact w;
  showArtifactSelector := showArtifactSelector w |}).

Definition setError (v : option jsstring) : M World () := modify (λ w, {|
  uploading := uploading w; result := result w; error := v;
  previewUrl := previewUrl w; processingSteps := processingSteps w;
  currentStep := currentStep w; artifacts := artifacts w;
  uploads := uploads w; nextUpload := nextUpload w;
  fetched := fetched w;
  selectedArtifact := selectedArtifact w;
  showArtifactSelector := showArtifactSelector w |}).

Definition setPreviewUrl (v : option jsstring) : M World () := modify (λ w, {|
  uploading := uploading w; result := result w; error := error w;
  previewUrl := v; processingSteps := processingSteps w;
  currentStep := currentStep w; artifacts := artifacts w;
  uploads := uploads w; nextUpload := nextUpload w;
  fetched := fetched w;
  selectedArtifact := selectedArtifact w;
  showArtifactSelector := showArtifactSelector w |}).

(** [setProcessingSteps(prev => f(prev))] *)
Definition setProcessingSteps (f : list ProcessingStep -> list ProcessingStep) : M World () := modify (λ w, {|
  uploading := uploading w; result := result w; error := error w;
  previewUrl := previewUrl w; processingSteps := f (processingSteps w);
  currentStep := currentStep w; artifacts := artifacts w;
  uploads := uploads w; nextUpload := nextUpload w;
  fetched := fetched w;
  selectedArtifact := selectedArtifact w;
  showArtifactSelector := showArtifactSelector w |}).

Definition setCurrentStep (v : option jsstring) : M World () := modify (λ w, {|
  uploading := uploading w; result := result w; error := error w;
  previewUrl := previewUrl w; processingSteps := processingSteps w;
  currentStep := v; artifacts := artifacts w; uploads := uploads w;
  nextUpload := nextUpload w; fetched := fetched w;
  selectedArtifact := selectedArtifact w;
  showArtifactSelector := showArtifactSelector w |}).

(** A call on the wizard context: [setArtifacts(prev => f(prev))]. *)
Definition setArtifacts (f : WizardContext.UploadedArtifacts ImageMetadata
    -> WizardContext.UploadedArtifacts ImageMetadata) : M World () := modify (λ w, {|
  uploading := uploading w; result := result w; error := error w;
  previewUrl := previewUrl w; processingSteps := processingSteps w;
  currentStep := currentStep w; artifacts := f (artifacts w);
  uploads := uploads w; nextUpload := nextUpload w;
  fetched := fetched w;
  selectedArtifact := selectedArtifact w;
  showArtifactSelector := showArtifactSelector w |}).

Definition setUploads (f : gmap nat Upload -> gmap nat Upload) : M World () := modify (λ w, {|
  uploading := uploading w; result := result w; error := error w;
  previewUrl := previewUrl w; processingSteps := processingSteps w;
  currentStep := currentStep w; artifacts := artifacts w;
  uploads := f (uploads w); nextUpload := nextUpload w;
  fetched := fetched w;
  selectedArtifact := selectedArtifact w;
  showArtifactSelector := showArtifactSelector w |}).

Definition setSelectedArtifact (v : option Artifact) : M World () := modify (λ w, {|
  uploading := uploading w; result := result w; error := error w;
  previewUrl := previewUrl w; processingSteps := processingSteps w;
  currentStep := currentStep w; artifacts := artifacts w;
  uploads := uploads w; nextUpload := nextUpload w;
  fetched := fetched w; selectedArtifact := v;
  showArtifactSelector := showArtifactSelector w |}).

Definition setShowArtifactSelector (v : bool) : M World () := modify (λ w, {|
  uploading := uploading w; result := result w; error := error w;
  previewUrl := previewUrl w; processingSteps := processingSteps w;
  currentStep := currentStep w; artifacts := artifacts w;
  uploads := uploads w; nextUpload := nextUpload w;
  fetched := fetched w; selectedArtifact := selectedArtifact w;
  showArtifactSelector := v |}).

(** [fetch(url, init)], up to the promise it returns. *)
Definition fetch (r : Request) : M World () := modify (λ w, {|
  uploading := uploading w; result := result w; error := error w;
  previewUrl := previewUrl w; processingSteps := processingSteps w;
  currentStep := currentStep w; artifacts := artifacts w;
  uploads := uploads w; nextUpload := nextUpload w;
  fetched := r :: fetched w;
  selectedArtifact := selectedArtifact w;
  showArtifactSelector := showArtifactSelector w |}).

(** A new call in flight, under a fresh number. *)
Definition spawn (u : Upload) : M World () := modify (λ w, {|
  uploading := uploading w; result := result w; error := error w;
  previewUrl := previewUrl w; processingSteps := processingSteps w;
  currentStep := currentStep w; artifacts := artifacts w;
  uploads := <[nextUpload w := u]> (uploads w);
  nextUpload := S (nextUpload w); fetched := fetched w;
  selectedArtifact := selectedArtifact w;
  showArtifactSelector := showArtifactSelector w |}).

(** ** The processing steps *)

(** The updater of [updateStepStatus] (lines 109-115):
    [prev.map(step => step.id === stepId ? { ...step, status } : step)]. *)
Definition withStatus (stepId : jsstring) (status' : StepStatus)
    (prev : list ProcessingStep) : list ProcessingStep :=
  (λ step,
     if strictEq (id step) stepId
     then {| id := id step; title := title step;
             description := description step; status := status' |}
     else step) <$> prev.

(** [updateStepStatus] (lines 108-119). *)
Definition updateStepStatus (stepId : jsstring) (status' : StepStatus)
  : M World () :=
  setProcessingSteps (withStatus stepId status');;
  if decide (status' = processing) then setCurrentStep (Some stepId)
  else mret ().

(** [initializeProcessingSteps] (lines 65-106). *)
Definition initializeProcessingSteps : M World () :=
  setProcessingSteps (λ _, steps);;
  setCurrentStep (Some (lit "upload")).

(** The id of the [k]-th entry of [delays]. *)
Definition stepId (k : nat) : jsstring := default [] (fst <$> delays !! k).

(** [simulateProcessingProgress] (lines 121-137) up to its first [await]:
    the first step is marked 'processing'. *)
Definition simulate_start : M World () :=
  updateStepStatus (stepId 0) processing.

(** ... and from the [k]-th timer on ([k] timers have fired before): the
    step that was waiting is marked 'completed' and the loop goes on to
    mark the next one 'processing', if there is one. *)
Definition simulate_timer (k : nat) : M World () :=
  updateStepStatus (stepId k) completed;;
  if decide (S k < length delays) then
    updateStepStatus (stepId (S k)) processing
  else mret ().

(** ** uploadFile and createSampleImage *)

Definition uploadRequest (file : File) : Request :=
  {| url := lit "http://localhost:8000/wizard/image/upload";
     method := Http.POST;
     formData := Some [(lit "file", FormFile file);
                       (lit "session_id",
                        FormString (lit "frontend-upload"));
                       (lit "target_size", FormString (lit "512"))] |}.

Definition sampleRequest : Request :=
  {| url := lit "http://localhost:8000/wizard/image/sample";
     method := Http.POST;
     formData := Some [(lit "target_size", FormString (lit "512"))] |}.

(** The first request of [handleArtifactSelect] (line 280):
    [fetch(`http://localhost:8000/artifacts/${artifact.type}/${artifact.id}`)]. *)
Definition artifactRequest (artifact : Artifact) : Request :=
  {| url := lit "http://localhost:8000/artifacts/"
              ++ artifact_type artifact ++ lit "/" ++ artifact_id artifact;
     method := Http.GET;
     formData := None |}.

(** Either function up to [await fetch] (lines 152-168, 202-216).  The
    closure reads [currentStep] as it was rendered, before the setters
    of this call. *)
Definition start (source : Source) (r : Request) : M World () :=
  captured ← gets currentStep;
  setUploading true;;
  setError None;;
  initializeProcessingSteps;;
  simulate_start;;
  spawn {| source := source; capturedStep := captured;
           fired := 0; request := Awaiting |};;
  fetch r.

(** The [finally] block. *)
Definition finally (u : nat) : M World () :=
  setUploads (alter (λ up, {| source := source up;
                              capturedStep := capturedStep up;
                              fired := fired up;
                              request := Returned |}) u);;
  setUploading false;;
  setCurrentStep None.

(** The [catch] block (lines 189-194, 237-242): [if (currentStep)] looks
    at the captured value. *)
Definition catch (u : nat) (up : Upload) (message : jsstring)
  : M World () :=
  setError (Some message);;
  match capturedStep up with
  | Some currentStep =>
      if truthy currentStep then updateStepStatus currentStep error_
      else mret ()
  | None => mret ()
  end;;
  finally u.

(** The rest of the [try] block once both [data] is there and
    [progressPromise] is resolved (lines 180-188). *)
Definition finish (u : nat) (data : ImageUploadPage.ImageUploadResponse)
  : M World () :=
  setResult (Some data);;
  setPreviewUrl (Some (lit "http://localhost:8000"
                         ++ ImageUploadPage.files_face_ref data));;
  setArtifacts (WizardContext.setImageArtifact
                  (ImageUploadPage.image_id data)
                  {| meta_face_detected := ImageUploadPage.face_detected data;
                     meta_original_size := ImageUploadPage.original_size data;
                     meta_output_size := ImageUploadPage.output_size data |});;
  finally u.

(** The message thrown for a response to the POST that is not ok:
    [errorData.detail || 'Upload failed'] (lines 172 and 301) and
    [errorData.detail || 'Sample creation failed'] (line 220). *)
Definition failureText (source : Source) : jsstring :=
  match source with
  | uploadFile => lit "Upload failed"
  | createSampleImage => lit "Sample creation failed"
  | handleArtifactSelect => lit "Upload failed"
  end.

(** The function from its [await fetch] on, given how the request
    settled. *)
Definition settle (u : nat) (up : Upload) (r : Settled) : M World () :=
  match r with
  | Rejected message => catch u up message
  | NotOk (inl message) => catch u up message
  | NotOk (inr detail) =>
      catch u up (or_else detail (failureText (source up)))
  | Ok (inl message) => catch u up message
  | Ok (inr data) =>
      if decide (fired up = length delays) then finish u data
      else
        setUploads (<[u := {| source := source up;
                              capturedStep := capturedStep up;
                              fired := fired up;
                              request := Holding data |}]>)
  end.

(** A timer of the simulation of call [u] fires. *)
Definition timer (u : nat) (up : Upload) : M World () :=
  simulate_timer (fired up);;
  setUploads (<[u := {| source := source up;
                        capturedStep := capturedStep up;
                        fired := S (fired up);
                        request := request up |}]>);;
  match request up with
  | Holding data =>
      if decide (S (fired up) = length delays) then finish u data
      else mret ()
  | _ => mret ()
  end.

(** ** handleArtifactSelect *)

(** [handleArtifactSelect] (lines 266-329) up to its first [await fetch]
    (lines 267-280).  As in [start], the closure reads [currentStep] as
    it was rendered. *)
Definition handleArtifactSelect_start (artifact : Artifact) : M World () :=
  captured ← gets currentStep;
  setSelectedArtifact (Some artifact);;
  setShowArtifactSelector false;;
  setUploading true;;
  setError None;;
  initializeProcessingSteps;;
  simulate_start;;
  spawn {| source := handleArtifactSelect; capturedStep := captured;
           fired := 0; request := Fetching artifact |};;
  fetch (artifactRequest artifact).

(** ... and from that [await] on, given how the request for the file
    settled (lines 281-297): a failure goes to the [catch] block; with
    the blob the function builds the [File] and sends the upload, from
    where it goes on as [uploadFile] does ([settle]). *)
Definition fileFetched (u : nat) (up : Upload) (artifact : Artifact)
    (r : Fetched) : M World () :=
  match r with
  | FetchRejected message => catch u up message
  | FetchNotOk => catch u up (lit "Failed to fetch image file")
  | FetchOk (inl message) => catch u up message
  | FetchOk (inr blobType) =>
      setUploads (<[u := {| source := source up;
                            capturedStep := capturedStep up;
                            fired := fired up;
                            request := Awaiting |}]>);;
      fetch (uploadRequest {| file_name := artifact_name artifact;
                              file_type := blobType |})
  end.

(** ** handleFileSelect and handleDrop *)

(** [handleFileSelect] (lines 139-149); [objectUrl] is what
    [URL.createObjectURL(file)] returns. *)
Definition handleFileSelect (file : option File) (objectUrl : jsstring)
  : M World () :=
  match file with
  | None => mret ()
  | Some file =>
      setPreviewUrl (Some objectUrl);;
      start uploadFile (uploadRequest file)
  end.

(** [handleDrop] (lines 249-260). *)
Definition handleDrop (files : list File) (objectUrl : jsstring)
  : M World () :=
  match files with
  | [] => mret ()
  | file :: _ =>
      if startsWith (lit "image/") (file_type file)
      then handleFileSelect (Some file) objectUrl
      else setError (Some (lit "Please select an image file"))
  end.

(** ** The page as a transition system *)

Inductive Event :=
| FileSelected (file : option File) (objectUrl : jsstring)
| Dropped (files : list File) (objectUrl : jsstring)
| SampleClicked
| TimerFired (u : nat)
| RequestSettled (u : nat) (r : Settled)
| SelectorToggled
| ArtifactSelected (artifact : Artifact)
| FileFetched (u : nat) (r : Fetched).

(** A timer fires only while its simulation has timers left; a request
    settles once.  [SelectorToggled] is a click on "Use Previous" (line
    358), [ArtifactSelected] the [onSelect] of the artifact selector,
    [FileFetched] the settlement of the request for the artifact's
    file. *)
Definition handle (e : Event) : M World () :=
  match e with
  | FileSelected file objectUrl => handleFileSelect file objectUrl
  | Dropped files objectUrl => handleDrop files objectUrl
  | SampleClicked => start createSampleImage sampleRequest
  | TimerFired u =>
      live ← gets uploads;
      match live !! u with
      | Some up =>
          if decide (fired up < length delays) then timer u up
          else mret ()
      | None => mret ()
      end
  | RequestSettled u r =>
      live ← gets uploads;
      match live !! u with
      | Some up =>
          match request up with
          | Awaiting => settle u up r
          | _ => mret ()
          end
      | None => mret ()
      end
  | SelectorToggled =>
      showArtifactSelector ← gets showArtifactSelector;
      setShowArtifactSelector (negb showArtifactSelector)
  | ArtifactSelected artifact => handleArtifactSelect_start artifact
  | FileFetched u r =>
      live ← gets uploads;
      match live !! u with
      | Some up =>
          match request up with
          | Fetching artifact => fileFetched u up artifact r
          | _ => mret ()
          end
      | None => mret ()
      end
  end.

Definition step (w : World) (e : Event) : World := exec (handle e) w.

Definition run (w : World) (es : list Event) : World := foldl step w es.

(** Does the event start a call of [uploadFile] or [createSampleImage]? *)
Definition starts (e : Event) : bool :=
  match e with
  | FileSelected (Some _) _ => true
  | Dropped (file :: _) _ => startsWith (lit "image/") (file_type file)
  | SampleClicked => true
  | _ => false
  end.

(** The statuses the steps show while one simulation runs alone: with [k]
    timers fired, [k] steps completed, the next one processing, the rest
    pending. *)
Definition progressOf (k : nat) : list StepStatus :=
  replicate k completed
  ++ (if decide (k < length delays)
      then processing :: replicate (length delays - S k) pending
      else []).

(** A call whose function has returned. *)
Definition returned (up : Upload) : Upload :=
  {| source := source up; capturedStep := capturedStep up;
     fired := fired up; request := Returned |}.

(** The metadata [finish] hands to the wizard context. *)
Definition metadataOf (data : ImageUploadPage.ImageUploadResponse)
  : ImageMetadata :=
  {| meta_face_detected := ImageUploadPage.face_detected data;
     meta_original_size := ImageUploadPage.original_size data;
     meta_output_size := ImageUploadPage.output_size data |}.

(** The events of an upload in flight: its timers and the settlement of
    its request. *)
Definition background (e : Event) : bool :=
  match e with
  | TimerFired _ | RequestSettled _ _ => true
  | _ => false
  end.

(** No call is in flight: every simulation has run out of timers and
    every function has returned. *)
Definition quiet (w : World) : Prop :=
  ∀ u up, uploads w !! u = Some up →
          fired up = length delays ∧ request up = Returned ∧
          u < nextUpload w.

(** What a call has heard from its request: nothing yet, the message
    with which its [try] block threw, or the data it read. *)
Inductive Answer :=
| NoAnswer
| Failure (message : jsstring)
| Success (data : ImageUploadPage.ImageUploadResponse).

(** What a settlement tells the function: the message with which the
    [try] block throws (lines 170-173, 218-221) or the data it reads. *)
Definition answerOf (source : Source) (r : Settled) : Answer :=
  match r with
  | Rejected message => Failure message
  | NotOk (inl message) => Failure message
  | NotOk (inr detail) => Failure (or_else detail (failureText source))
  | Ok (inl message) => Failure message
  | Ok (inr data) => Success data
  end.

(** The first settlement of the request of call [u] is the one that
    counts. *)
Definition hears (u : nat) (source : Source) (a : Answer) (e : Event)
  : Answer :=
  match e with
  | RequestSettled u' r =>
      match a with
      | NoAnswer => if decide (u' = u) then answerOf source r else NoAnswer
      | _ => a
      end
  | _ => a
  end.

(** What call [u] has heard after the events [es]. *)
Definition heard (u : nat) (source : Source) (es : list Event) : Answer :=
  foldl (hears u source) NoAnswer es.

(** The timers of call [u] that have fired after one more event, [k]
    having fired before; a simulation has as many timers as [delays] has
    entries. *)
Definition tick (u : nat) (k : nat) (e : Event) : nat :=
  match e with
  | TimerFired u' =>
      if decide (u' = u ∧ k < length delays) then S k else k
  | _ => k
  end.

(** The timers of call [u] that fire during [es]. *)
Definition timersFired (u : nat) (es : list Event) : nat :=
  foldl (tick u) 0 es.

(** The function an event calls, if it starts a call. *)
Definition sourceOf (e : Event) : Source :=
  match e with
  | SampleClicked => createSampleImage
  | ArtifactSelected _ => handleArtifactSelect
  | _ => uploadFile
  end.





(** The preview URL of an answer (lines 181, 229). *)
Definition servedUrl (data : ImageUploadPage.ImageUploadResponse)
  : jsstring :=
  lit "http://localhost:8000" ++ ImageUploadPage.files_face_ref data.

(** Call [u] of [src] runs alone, started when nothing was in flight and
    no step was current: [a] is what it has heard, [k] the number of its
    timers that have fired; [old], [shown] and [arts] are the result, the
    preview and the artifacts from when it started. *)
Definition flight (old : option ImageUploadPage.ImageUploadResponse)
    (shown : option jsstring)
    (arts : WizardContext.UploadedArtifacts ImageMetadata)
    (u : nat) (src : Source) (a : Answer) (k : nat) (w : World) : Prop :=
  ∃ up,
    uploads w !! u = Some up ∧
    source up = src ∧ capturedStep up = None ∧ fired up = k ∧
    k ≤ length delays ∧
    status <$> processingSteps w = progressOf k ∧
    id <$> processingSteps w = id <$> steps ∧
    (∀ u' up', u' ≠ u → uploads w !! u' = Some up' →
               fired up' = length delays ∧ request up' = Returned) ∧
    match a with
    | NoAnswer =>
        request up = Awaiting ∧ uploading w = true ∧ error w = None ∧
        result w = old ∧ previewUrl w = shown ∧ artifacts w = arts
    | Failure message =>
        request up = Returned ∧ uploading w = false ∧
        error w = Some message ∧
        result w = old ∧ previewUrl w = shown ∧ artifacts w = arts
    | Success data =>
        error w = None ∧
        if decide (k = length delays) then
          request up = Returned ∧ uploading w = false ∧
          result w = Some data ∧ previewUrl w = Some (servedUrl data) ∧
          artifacts w =
            WizardContext.setImageArtifact (ImageUploadPage.image_id data)
              (metadataOf data) arts
        else
          request up = Holding data ∧ uploading w = true ∧
          result w = old ∧ previewUrl w = shown ∧ artifacts w = arts
    end.

(** Does the event settle the upload request of call [u]? *)
Definition settles (u : nat) (e : Event) : bool :=
  match e with
  | RequestSettled u' _ => bool_decide (u' = u)
  | _ => false
  end.

(** Call [u], started when [c] was the current step, waits for its
    request. *)
Definition waiting (u : nat) (src : Source) (c : option jsstring)
    (w : World) : Prop :=
  u < nextUpload w ∧
  ∃ up, uploads w !! u = Some up ∧ source up = src ∧
        capturedStep up = c ∧ request up = Awaiting.


Definition portrait : File :=
  {| file_name := lit "me.png"; file_type := lit "image/png" |}.

End ImageUploadFlow.

(* ===================================================================== *)
(** * Facts about the string operations *)
(* ===================================================================== *)

Module JSFacts.
Import JS.

(** ** Literals *)

Lemma lit_empty : lit "" = [].
Proof. reflexivity. Qed.

Lemma lit_String (c : Ascii.ascii) (s : string) :
  lit (String c s) = Ascii.N_of_ascii c :: lit s.
Proof. reflexivity. Qed.

Lemma lit_inj (s t : string) : lit s = lit t → s = t.
Proof.
  unfold lit. intros H.
  rewrite <- (String.string_of_list_ascii_of_string s),
          <- (String.string_of_list_ascii_of_string t).
  assert (Inj (=) (=) Ascii.N_of_ascii) as Hinj.
  { intros a b E.
    rewrite <- (Ascii.ascii_N_embedding a), <- (Ascii.ascii_N_embedding b).
    by rewrite E. }
  f_equal. revert H. apply (inj (fmap Ascii.N_of_ascii)).
Qed.

(** From here on the literals of the source stay folded in the goals. *)
#[global] Opaque lit.

(** ** startsWith, includes, replace *)

Lemma startsWith_app (pat rest : jsstring) :
  startsWith pat (pat ++ rest) = true.
Proof.
  induction pat as [|p pat IH]; simpl.
  - reflexivity.
  - rewrite N.eqb_refl. exact IH.
Qed.

Lemma startsWith_inv (pat s : jsstring) :
  startsWith pat s = true → s = pat ++ drop (length pat) s.
Proof.
  revert s. induction pat as [|p pat IH]; intros [|c s] H; simpl in *;
    try done.
  apply andb_prop in H as [Hc Hs]. apply N.eqb_eq in Hc. subst c.
  f_equal. by apply IH.
Qed.

Lemma startsWith_iff (pat s : jsstring) :
  startsWith pat s = true ↔ ∃ rest, s = pat ++ rest.
Proof.
  split.
  - intros H. eexists. by apply startsWith_inv.
  - intros [rest ->]. apply startsWith_app.
Qed.

(** [includes] is the substring test. *)
Lemma includes_iff (pat s : jsstring) :
  includes pat s = true ↔ ∃ before after, s = before ++ pat ++ after.
Proof.
  induction s as [|c s IH].
  - simpl. rewrite orb_false_r, startsWith_iff. split.
    + intros [rest H]. by exists [], rest.
    + intros [before [after H]]. symmetry in H.
      apply app_eq_nil in H as [-> H]. eauto.
  - simpl. rewrite orb_true_iff, startsWith_iff, IH. split.
    + intros [[rest H] | (before & after & H)].
      * by exists [], rest.
      * exists (c :: before), after. by rewrite H.
    + intros ([|c' before] & after & H); simpl in H.
      * left. eauto.
      * right. injection H as _ H. eauto.
Qed.

(** On a string that starts with the pattern, [replace] rewrites that
    prefix. *)
Lemma str_replace_prefix (pat rep rest : jsstring) :
  str_replace pat rep (pat ++ rest) = rep ++ rest.
Proof.
  destruct (pat ++ rest) as [|c s] eqn:E; simpl.
  - apply app_eq_nil in E as [-> ->]. done.
  - rewrite <- E. rewrite startsWith_app.
    by rewrite drop_app_length.
Qed.

(** Without an occurrence of the pattern, [replace] is the identity. *)
Lemma str_replace_absent (pat rep s : jsstring) :
  includes pat s = false → str_replace pat rep s = s.
Proof.
  induction s as [|c s IH]; simpl; intros H.
  - apply orb_false_elim in H as [-> _]. done.
  - apply orb_false_elim in H as [-> H]. f_equal. by apply IH.
Qed.

(** With one, [replace] rewrites the leftmost. *)
Lemma str_replace_first (pat rep s : jsstring) :
  includes pat s = true →
  ∃ before after,
    s = before ++ pat ++ after ∧
    str_replace pat rep s = before ++ rep ++ after ∧
    ∀ n, n < length before → startsWith pat (drop n s) = false.
Proof.
  induction s as [|c s IH]; simpl; intros H.
  - rewrite orb_false_r in H. rewrite H.
    exists [], (drop (length pat) []). split_and!.
    + by apply startsWith_inv.
    + done.
    + simpl. lia.
  - destruct (startsWith pat (c :: s)) eqn:E.
    + exists [], (drop (length pat) (c :: s)). split_and!.
      * by apply startsWith_inv.
      * done.
      * simpl. lia.
    + simpl in H. destruct (IH H) as (before & after & Hs & Hr & Hmin).
      exists (c :: before), after. split_and!.
      * simpl. by rewrite <- Hs.
      * simpl. by rewrite Hr.
      * intros [|n] Hn; simpl in *; [done|]. apply Hmin. lia.
Qed.

Lemma truthy_iff (s : jsstring) : truthy s = true ↔ s ≠ [].
Proof. destruct s; simpl; split; done. Qed.

Lemma or_else_truthy (o : option jsstring) (dflt s : jsstring) :
  o = Some s → s ≠ [] → or_else o dflt = s.
Proof. intros -> H. destruct s; done. Qed.

Lemma or_else_falsy (o : option jsstring) (dflt : jsstring) :
  truthy_opt o = false → or_else o dflt = dflt.
Proof. destruct o as [[|]|]; done. Qed.

Lemma strictEq_iff (a b : jsstring) : strictEq a b = true ↔ a = b.
Proof. unfold strictEq. apply bool_decide_eq_true. Qed.

Lemma strictEq_false_iff (a b : jsstring) : strictEq a b = false ↔ a ≠ b.
Proof. unfold strictEq. apply bool_decide_eq_false. Qed.

End JSFacts.

(* ===================================================================== *)
(** * Facts about components/PreviewGenerator.tsx *)
(* ===================================================================== *)

Module PreviewGeneratorFacts.
Import JS Http PreviewGenerator JSFacts.

(** Run a handler on a symbolic state. *)
Ltac run_handler :=
  cbv [step exec handle
       poll_resume poll_catch poll_task poll_start pollTaskStatus
       generatePreview_start generatePreview_catch generatePreview_resume
       cancelGeneration_start cancelGeneration_resume
       setPrompt setIsGenerating setCurrentTask setError setPreviewVideo
       call_onPreviewGenerated fetch setInterval clearInterval
       gets modify mbind mret M_bind M_ret snd fst
       prompt isGenerating currentTask error previewVideo
       onPreviewGenerated previewGenerated intervals nextIntervalId
       fetched].

(** ** What a settled poll does to the timers *)

Lemma stopsPolling_iff (r : Settled PreviewTask.t) :
  stopsPolling r = true ↔
  returnsStatus (lit "completed") r ∨ returnsStatus (lit "failed") r ∨
  throws r.
Proof.
  unfold returnsStatus, throws.
  destruct r as [message | [ok [message | task]]]; simpl.
  - naive_solver.
  - destruct ok; simpl; split; try naive_solver.
  - destruct ok; simpl.
    + rewrite orb_true_iff, !strictEq_iff. split.
      * intros [H | H]; [left | right; left];
          by eexists _, task.
      * intros [(? & ? & [= <-] & _ & [= <-] & H)
               |[(? & ? & [= <-] & _ & [= <-] & H)
                |[? | [? ?]]]]; naive_solver.
    + split; naive_solver.
Qed.

Lemma poll_resume_intervals (w : World) (id : nat)
    (r : Settled PreviewTask.t) :
  intervals (step w (PollResumed id r)) =
  if stopsPolling r then delete id (intervals w) else intervals w.
Proof.
  destruct r as [message | [ok [message | task]]]; simpl.
  - reflexivity.
  - destruct ok; reflexivity.
  - destruct ok; [|reflexivity]. run_handler. simpl.
    destruct (strictEq (PreviewTask.status task) (lit "completed")).
    + destruct (PreviewTask.video_path task) as [[|]|]; reflexivity.
    + destruct (strictEq (PreviewTask.status task) (lit "failed"));
        reflexivity.
Qed.

(** ** What each event does to the timers *)

Lemma step_intervals (w : World) (e : Event) :
  intervals (step w e) =
  match e with
  | PollResumed id r =>
      if stopsPolling r then delete id (intervals w) else intervals w
  | GenerateResumed r =>
      match started r with
      | Some data =>
          <[nextIntervalId w :=
              {| delay := 2000; taskId := data_task_id data |}]>
            (intervals w)
      | None => intervals w
      end
  | _ => intervals w
  end.
Proof.
  destruct e as [value| |r|id|id r| |r].
  - reflexivity.
  - run_handler. destruct (truthy (trim _)); reflexivity.
  - destruct r as [message | [[] [message | data]]]; reflexivity.
  - run_handler. destruct (_ !! id); reflexivity.
  - apply poll_resume_intervals.
  - run_handler. destruct w as [? ? [task|] ? ? ? ? ? ? ?]; reflexivity.
  - destruct r; reflexivity.
Qed.

Lemma step_nextIntervalId (w : World) (e : Event) :
  nextIntervalId w ≤ nextIntervalId (step w e).
Proof.
  destruct e as [value| |r|id|id r| |r].
  - reflexivity.
  - run_handler. destruct (truthy (trim _)); reflexivity.
  - destruct r as [message | [[] [message | data]]];
      run_handler; simpl; lia.
  - run_handler. destruct (_ !! id); reflexivity.
  - destruct r as [message | [ok [message | task]]];
      [reflexivity | destruct ok; reflexivity |].
    destruct ok; [|reflexivity]. run_handler. simpl.
    destruct (strictEq _ (lit "completed")).
    + destruct (PreviewTask.video_path task) as [[|]|]; reflexivity.
    + destruct (strictEq _ (lit "failed")); reflexivity.
  - run_handler. destruct w as [? ? [task|] ? ? ? ? ? ? ?]; reflexivity.
  - destruct r; reflexivity.
Qed.

Lemma generate_resumed_nextIntervalId (w : World) (r : Settled StartData)
    (data : StartData) :
  started r = Some data →
  nextIntervalId (step w (GenerateResumed r)) = S (nextIntervalId w).
Proof.
  destruct r as [message | [[] [message | d]]]; intros [=].
  reflexivity.
Qed.

Lemma fresh_mount (cb : bool) : fresh (mount cb).
Proof. intros id [i H]. simpl in H. by rewrite lookup_empty in H. Qed.

Lemma fresh_step (w : World) (e : Event) : fresh w → fresh (step w e).
Proof.
  intros Hw id Hid. pose proof (step_nextIntervalId w e) as Hle.
  rewrite step_intervals in Hid.
  assert (is_Some (intervals w !! id) → id < nextIntervalId (step w e))
    as Hold by (intros H; apply Hw in H; lia).
  destruct e as [value| |r|id'|id' r| |r]; try by apply Hold.
  - destruct (started r) as [data|] eqn:E; [|by apply Hold].
    rewrite (generate_resumed_nextIntervalId _ _ _ E).
    destruct (decide (nextIntervalId w = id)) as [<-|Hne]; [lia|].
    rewrite lookup_insert_ne in Hid by done. apply Hw in Hid. lia.
  - destruct (stopsPolling r); [|by apply Hold].
    destruct (decide (id' = id)) as [->|Hne].
    + rewrite lookup_delete_eq in Hid. by destruct Hid.
    + rewrite lookup_delete_ne in Hid by done. by apply Hold.
Qed.

Lemma fresh_run (w : World) (es : list Event) : fresh w → fresh (run w es).
Proof.
  revert w. induction es as [|e es IH]; intros w Hw; simpl; [done|].
  apply IH. by apply fresh_step.
Qed.

(** A live timer stays as it is under every event but a stopping poll of
    its own. *)
Lemma live_step (w : World) (e : Event) (id : nat) (i : Interval) :
  fresh w → intervals w !! id = Some i → stops id e = false →
  intervals (step w e) !! id = Some i.
Proof.
  intros Hw Hid He. rewrite step_intervals.
  destruct e as [value| |r|id'|id' r| |r]; try done.
  - destruct (started r) as [data|]; [|done].
    rewrite lookup_insert_ne; [done|].
    intros <-. assert (is_Some (intervals w !! nextIntervalId w)) as H
      by eauto. apply Hw in H. lia.
  - simpl in He. destruct (stopsPolling r); [|done].
    rewrite andb_true_r in He. apply bool_decide_eq_false in He.
    by rewrite lookup_delete_ne.
Qed.

(** A timer that is not live stays so under every event but the resumed
    [generatePreview] that creates it. *)
Lemma dead_step (w : World) (e : Event) (id : nat) :
  intervals w !! id = None →
  intervals (step w e) !! id = None ∨
  ∃ r data, e = GenerateResumed r ∧ started r = Some data ∧
            id = nextIntervalId w.
Proof.
  intros Hid. rewrite step_intervals.
  destruct e as [value| |r|id'|id' r| |r]; try by left.
  - destruct (started r) as [data|] eqn:E; [|by left].
    destruct (decide (nextIntervalId w = id)) as [<-|Hne].
    + right. eauto.
    + left. by rewrite lookup_insert_ne.
  - left. destruct (stopsPolling r); [|done].
    rewrite lookup_delete_None. by right.
Qed.

Lemma live_run (w : World) (es : list Event) (id : nat) (i : Interval) :
  fresh w → intervals w !! id = Some i →
  Forall (λ e, stops id e = false) es →
  intervals (run w es) !! id = Some i.
Proof.
  revert w. induction es as [|e es IH]; intros w Hw Hid Hes; simpl;
    [done|].
  apply Forall_cons in Hes as [He Hes].
  apply IH; [by apply fresh_step | by apply live_step | done].
Qed.

(** A timer that was live and no longer is has been cleared by a poll of
    its own that reached a [clearInterval]. *)
Lemma cleared_run (w : World) (es : list Event) (id : nat) :
  fresh w → is_Some (intervals w !! id) →
  intervals (run w es) !! id = None →
  ∃ r, PollResumed id r ∈ es ∧ stopsPolling r = true.
Proof.
  intros Hw [i Hid] Hend.
  destruct (decide (Forall (λ e, stops id e = false) es)) as [Hall|Hex].
  - rewrite (live_run w es id i) in Hend by done. done.
  - apply not_Forall_Exists in Hex; [|intros e; apply _].
    apply Exists_exists in Hex as (e & Hin & He).
    apply not_false_is_true in He.
    destruct e as [value| |r|id'|id' r| |r]; try done.
    simpl in He. apply andb_prop in He as [Heq Hr].
    apply bool_decide_eq_true in Heq as ->. eauto.
Qed.

(** A tick of a live timer issues the status request for its task and
    changes nothing else. *)
Lemma interval_fired (w : World) (id : nat) (i : Interval) :
  intervals w !! id = Some i →
  fetched (step w (IntervalFired id)) = statusRequest (taskId i) :: fetched w.
Proof.
  intros H. destruct w. simpl in H. run_handler. rewrite H. reflexivity.
Qed.

(** In a state reached from the mounted component every live timer polls
    with a delay of 2000 ms. *)
Lemma step_delay (w : World) (e : Event) :
  (∀ id i, intervals w !! id = Some i → delay i = 2000%Z) →
  ∀ id i, intervals (step w e) !! id = Some i → delay i = 2000%Z.
Proof.
  intros Hw id i. rewrite step_intervals.
  destruct e as [value| |r|id'|id' r| |r]; try by apply Hw.
  - destruct (started r) as [data|]; [|by apply Hw].
    destruct (decide (nextIntervalId w = id)) as [<-|Hne].
    + rewrite lookup_insert_eq. by intros [= <-].
    + rewrite lookup_insert_ne by done. apply Hw.
  - destruct (stopsPolling r); [|by apply Hw].
    intros H. apply lookup_delete_Some in H as [_ H]. by eapply Hw.
Qed.

Lemma run_delay (cb : bool) (es : list Event) (id : nat) (i : Interval) :
  intervals (run (mount cb) es) !! id = Some i → delay i = 2000%Z.
Proof.
  revert id i. unfold run.
  induction es as [|e es IH] using rev_ind; intros id i.
  - simpl. by rewrite lookup_empty.
  - rewrite foldl_app. simpl. by apply step_delay.
Qed.

Lemma returnsStatus_stopsPolling (s : jsstring)
    (r : Settled PreviewTask.t) :
  returnsStatus s r →
  stopsPolling r =
    strictEq s (lit "completed") || strictEq s (lit "failed").
Proof.
  intros (response & task & -> & Hok & Hjson & <-). simpl.
  by rewrite Hok, Hjson.
Qed.

(** ** C1 *)




(** ** C9 *)

(** C9.  In every state [w] reached from the mounted component, a live
    timer [id] has a delay of 2000 ms and neither half of
    [cancelGeneration] touches the timers; a poll that observes status
    'cancelled' does not either.  Whatever happens next, the timer stays
    live as long as no poll of its own reaches a [clearInterval], and if
    it is gone, then a poll of its own has returned status 'completed' or
    'failed' or has thrown. *)
Theorem cancel_keeps_polling (cb : bool) (before after : list Event)
    (id : nat) (timer : Interval) :
  let w := run (mount cb) before in
  intervals w !! id = Some timer →
  delay timer = 2000%Z ∧
  intervals (step w CancelClicked) = intervals w ∧
  (∀ r, intervals (step w (CancelResumed r)) = intervals w) ∧
  (∀ r, returnsStatus (lit "cancelled") r →
        intervals (step w (PollResumed id r)) = intervals w) ∧
  fetched (step w (IntervalFired id)) =
    statusRequest (taskId timer) :: fetched w ∧
  (Forall (λ e, stops id e = false) after →
   intervals (run w after) !! id = Some timer) ∧
  (intervals (run w after) !! id = None →
   ∃ r, PollResumed id r ∈ after ∧
        (returnsStatus (lit "completed") r ∨
         returnsStatus (lit "failed") r ∨ throws r)).
Proof.
  intros w Hlive.
  assert (fresh w) as Hw by apply fresh_run, fresh_mount.
  split_and!.
  - by eapply run_delay.
  - by rewrite step_intervals.
  - intros r. by rewrite step_intervals.
  - intros r Hr. rewrite step_intervals.
    by rewrite (returnsStatus_stopsPolling _ r Hr).
  - by apply interval_fired.
  - intros Hall. by apply live_run.
  - intros Hgone.
    destruct (cleared_run w after id Hw) as (r & Hin & Hr); [eauto|done|].
    exists r. by rewrite <- stopsPolling_iff.
Qed.

Lemma cancel_keeps_polling_witness :
  let after := [CancelClicked; CancelResumed (Samples.answered ());
                IntervalFired 0;
                PollResumed 0 (Samples.answered Samples.cancelledTask)] in
  intervals (run Samples.pollingWorld after) !! 0 =
    Some {| delay := 2000; taskId := lit "t1" |}.
Proof.
  intros after.
  apply (cancel_keeps_polling true Samples.generating after 0
           {| delay := 2000; taskId := lit "t1" |}).
  - reflexivity.
  - repeat constructor.
Defined.

(** ** C4 *)

(** C4, as stated, fails: the callback prop is given and timer 0 polls;
    a poll returns status 'completed' without a video path.  No preview
    video is recorded and the callback is not invoked. *)
Lemma completed_without_video_records_nothing :
  let w := step Samples.pollingWorld
             (PollResumed 0 (Samples.answered Samples.completedWithoutVideo)) in
  onPreviewGenerated w = true ∧
  (PreviewTask.status <$> currentTask w) = Some (lit "completed") ∧
  previewVideo w = None ∧
  previewGenerated w = [].
Proof. by vm_compute. Qed.

(** C4, amended.  When a poll returns status 'completed', the client
    clears the polling timer and the generating flag and keeps the
    returned snapshot (video path, audio path and progress included) as
    the current task.  If the snapshot has a non-empty video path, that
    path becomes the preview video and [onPreviewGenerated], when the
    prop is given, is called with it; otherwise the preview video is
    left as it was and nothing is called. *)
Theorem completed_poll (w : World) (id : nat)
    (response : Response PreviewTask.t) (task : PreviewTask.t) :
  ok response = true → json response = inr task →
  PreviewTask.status task = lit "completed" →
  let w' := step w (PollResumed id (Fulfilled response)) in
  intervals w' = delete id (intervals w) ∧
  isGenerating w' = false ∧
  currentTask w' = Some task ∧
  error w' = error w ∧
  (∀ video_path,
     PreviewTask.video_path task = Some video_path → video_path ≠ [] →
     previewVideo w' = Some video_path ∧
     previewGenerated w' =
       if onPreviewGenerated w then video_path :: previewGenerated w
       else previewGenerated w) ∧
  (truthy_opt (PreviewTask.video_path task) = false →
   previewVideo w' = previewVideo w ∧
   previewGenerated w' = previewGenerated w).
Proof.
  destruct response as [isok body]. simpl. intros -> -> Hstatus.
  run_handler. simpl. rewrite Hstatus.
  replace (strictEq (lit "completed") (lit "completed")) with true
    by (symmetry; by apply strictEq_iff).
  destruct (PreviewTask.video_path task) as [[|c video_path]|];
    simpl; split_and!; try done; intros ? [= <-]; done.
Qed.

Lemma completed_poll_witness :
  let w' := step Samples.pollingWorld
              (PollResumed 0 (Samples.answered Samples.completedTask)) in
  intervals w' = delete 0 (intervals Samples.pollingWorld) ∧
  isGenerating w' = false ∧
  currentTask w' = Some Samples.completedTask ∧
  previewVideo w' = Some (lit "/out/v.mp4") ∧
  previewGenerated w' = [lit "/out/v.mp4"].
Proof.
  destruct (completed_poll Samples.pollingWorld 0
              {| ok := true; json := inr Samples.completedTask |}
              Samples.completedTask eq_refl eq_refl eq_refl)
    as (Hi & Hg & Hc & _ & Hv & _).
  destruct (Hv (lit "/out/v.mp4") eq_refl) as [Hp Hcb]; [done|].
  split_and!; assumption.
Defined.

(** ** C5 *)

(** C5, as stated, fails: a poll returns status 'failed' with an [error]
    field that is present and empty.  The client shows its default
    message, not the field. *)
Lemma failed_with_empty_error_gets_default :
  let task := Samples.failedWithEmptyError in
  let w := step Samples.pollingWorld
             (PollResumed 0 (Samples.answered task)) in
  PreviewTask.error task = Some [] ∧
  error w = Some (lit "Preview generation failed") ∧
  error w ≠ Some (Spec.failureMessage task).
Proof. by vm_compute. Qed.

(** C5, amended.  When a poll returns status 'failed', the client clears
    the polling timer and the generating flag, keeps the snapshot as the
    current task, and shows the snapshot's [error] field when it is a
    non-empty string; it shows 'Preview generation failed' when the
    field is absent or empty. *)
Theorem failed_poll (w : World) (id : nat)
    (response : Response PreviewTask.t) (task : PreviewTask.t) :
  ok response = true → json response = inr task →
  PreviewTask.status task = lit "failed" →
  let w' := step w (PollResumed id (Fulfilled response)) in
  intervals w' = delete id (intervals w) ∧
  isGenerating w' = false ∧
  currentTask w' = Some task ∧
  (∀ e, PreviewTask.error task = Some e → e ≠ [] → error w' = Some e) ∧
  (PreviewTask.error task = None ∨ PreviewTask.error task = Some [] →
   error w' = Some (lit "Preview generation failed")).
Proof.
  destruct response as [isok body]. simpl. intros -> -> Hstatus.
  run_handler. simpl. rewrite Hstatus.
  replace (strictEq (lit "failed") (lit "completed")) with false
    by (symmetry; by apply strictEq_false_iff).
  replace (strictEq (lit "failed") (lit "failed")) with true
    by (symmetry; by apply strictEq_iff).
  simpl. split_and!; try done.
  - intros e He Hne. f_equal. by apply or_else_truthy.
  - intros [He | He]; rewrite He; reflexivity.
Qed.

Lemma failed_poll_witness :
  let w' := step Samples.pollingWorld
              (PollResumed 0 (Samples.answered Samples.failedTask)) in
  intervals w' = delete 0 (intervals Samples.pollingWorld) ∧
  isGenerating w' = false ∧
  error w' = Some (lit "Video generation failed").
Proof.
  destruct (failed_poll Samples.pollingWorld 0
              {| ok := true; json := inr Samples.failedTask |}
              Samples.failedTask eq_refl eq_refl eq_refl)
    as (Hi & Hg & _ & He & _).
  split_and!; [assumption | assumption |].
  apply He; [reflexivity | done].
Defined.

(** ** C6 *)

(** C6, as stated, fails: the one request a click on "Generate Preview"
    issues is a POST whose path is [/api/preview/generate-full], not
    [/preview/generate-full]. *)
Lemma generate_posts_under_api :
  ∃ request,
    fetched (run (mount true) Samples.clicked) = [request] ∧
    method request = POST ∧
    url request = lit "/api/preview/generate-full" ∧
    url request ≠ lit "/preview/generate-full".
Proof. eexists. by vm_compute. Qed.

(** C6, amended.  With a prompt that is not blank, [generatePreview]
    issues one POST to [/api/preview/generate-full] whose JSON body has
    exactly the fields [prompt] (the trimmed prompt, a string) and
    [use_sample] (the boolean [true]).  When the request is answered ok
    with a body [data], the client records [data.task_id],
    [data.status], [data.progress] and [data.message] as the current
    task and in the same step starts the 2000 ms polling timer for
    [data.task_id]. *)
Theorem generate_preview_request (w w' : World)
    (response : Response StartData) (data : StartData) :
  trim (prompt w) ≠ [] →
  ok response = true → json response = inr data →
  fetched (step w GenerateClicked) =
    {| method := POST;
       url := lit "/api/preview/generate-full";
       headers := [(lit "Content-Type", lit "application/json")];
       body := Some [(lit "prompt", JString (trim (prompt w)));
                     (lit "use_sample", JBool true)] |} :: fetched w ∧
  isGenerating (step w GenerateClicked) = true ∧
  let w'' := step w' (GenerateResumed (Fulfilled response)) in
  currentTask w'' =
    Some {| PreviewTask.task_id := data_task_id data;
            PreviewTask.status := data_status data;
            PreviewTask.progress := data_progress data;
            PreviewTask.current_step := None;
            PreviewTask.message := data_message data;
            PreviewTask.video_path := None;
            PreviewTask.audio_path := None;
            PreviewTask.error := None |} ∧
  intervals w'' =
    <[nextIntervalId w' :=
        {| delay := 2000; taskId := data_task_id data |}]> (intervals w') ∧
  fetched w'' = fetched w'.
Proof.
  intros Hprompt Hok Hjson. apply truthy_iff in Hprompt.
  destruct response as [isok body]. simpl in Hok, Hjson. subst.
  destruct w as [p ? ? ? ? ? ? ? ? ?]. simpl in Hprompt.
  run_handler. rewrite Hprompt. simpl. done.
Qed.

Lemma generate_preview_request_witness :
  let w := step (mount true) (PromptChanged (lit " Hello world ")) in
  fetched (step w GenerateClicked) =
    [{| method := POST;
        url := lit "/api/preview/generate-full";
        headers := [(lit "Content-Type", lit "application/json")];
        body := Some [(lit "prompt", JString (lit "Hello world"));
                      (lit "use_sample", JBool true)] |}].
Proof.
  intros w.
  destruct (generate_preview_request w w
              {| ok := true; json := inr Samples.startData |}
              Samples.startData) as [H _]; [by vm_compute|done|done|].
  exact H.
Defined.

(** ** C7 *)

(** C7, as stated, fails: task [t1] is current and "Cancel" is clicked.
    The DELETE goes to [/api/preview/tasks-full/t1], and when the
    network rejects it the current task is still there. *)
Lemma rejected_cancel_keeps_task :
  let w := step Samples.pollingWorld CancelClicked in
  let w' := step w (CancelResumed Samples.networkError) in
  (∃ request others,
     fetched w = request :: others ∧ method request = DELETE ∧
     url request = lit "/api/preview/tasks-full/t1" ∧
     url request ≠ lit "/preview/tasks-full/t1") ∧
  is_Some (currentTask Samples.pollingWorld) ∧
  currentTask w' = currentTask Samples.pollingWorld.
Proof.
  split_and!.
  - eexists _, _. by vm_compute.
  - by eexists.
  - reflexivity.
Qed.

(** C7, amended.  With a current task, [cancelGeneration] issues one
    DELETE to [/api/preview/tasks-full/{task_id}] for that task's id.
    Once that request is fulfilled, with whatever response, the client
    clears the current task and the generating flag; when the request is
    rejected the current task is kept and the error message is shown.
    Without a current task [cancelGeneration] does nothing: no request
    is issued. *)
Theorem cancel_generation_request (w w' : World) (task : PreviewTask.t) :
  currentTask w = Some task →
  fetched (step w CancelClicked) =
    {| method := DELETE;
       url := lit "/api/preview/tasks-full/" ++ PreviewTask.task_id task;
       headers := []; body := None |} :: fetched w ∧
  currentTask (step w CancelClicked) = Some task ∧
  (∀ response,
     currentTask (step w' (CancelResumed (Fulfilled response))) = None ∧
     isGenerating (step w' (CancelResumed (Fulfilled response))) = false) ∧
  (∀ message,
     currentTask (step w' (CancelResumed (Rejected message)))
       = currentTask w' ∧
     error (step w' (CancelResumed (Rejected message))) = Some message) ∧
  (currentTask w' = None → step w' CancelClicked = w').
Proof.
  intros Htask. split_and!.
  - destruct w. simpl in Htask. subst. reflexivity.
  - destruct w. simpl in Htask. subst. reflexivity.
  - done.
  - done.
  - intros Hnone. destruct w'. simpl in Hnone. subst. reflexivity.
Qed.

Lemma cancel_generation_request_witness :
  fetched (step Samples.pollingWorld CancelClicked) =
    {| method := DELETE;
       url := lit "/api/preview/tasks-full/" ++ lit "t1";
       headers := []; body := None |} :: fetched Samples.pollingWorld.
Proof.
  destruct (cancel_generation_request Samples.pollingWorld (mount true)
              (Samples.task (lit "started") 0 (Some (lit "Starting"))
                 None None None)) as [H _]; [reflexivity|].
  exact H.
Defined.

(** ** C8 *)

(** C8, as stated, fails: the video stage reports
    'Stage 3/4 - SadTalker: Rendering'.  The panel is shown and reads
    'Stage 3/4 - Rendering': the text 'SadTalker: ' is cut out of the
    middle, while the message has no such prefix to remove. *)
Lemma sadTalker_detail_cut_from_the_middle :
  let w := step Samples.pollingWorld
             (PollResumed 0 (Samples.answered Samples.sadTalkerInsideTask)) in
  sadTalkerPanel w = Some (lit "Stage 3/4 - Rendering") ∧
  sadTalkerPanel w ≠
    Some (Spec.withoutPrefix (lit "SadTalker: ")
            (lit "Stage 3/4 - SadTalker: Rendering")).
Proof. by vm_compute. Qed.

(** C8, amended.  The panel is rendered exactly when there is a current
    task whose status is 'generating_video' and whose message contains
    'SadTalker'.  Its text is the message with the leftmost occurrence
    of 'SadTalker: ' cut out: the rest of the message when it starts
    with 'SadTalker: ', and the whole message when 'SadTalker: ' does
    not occur in it. *)
Theorem sadTalker_panel (w : World) :
  (is_Some (sadTalkerPanel w) ↔
   ∃ task message before after,
     currentTask w = Some task ∧
     PreviewTask.status task = lit "generating_video" ∧
     PreviewTask.message task = Some message ∧
     message = before ++ lit "SadTalker" ++ after) ∧
  (∀ task message,
     currentTask w = Some task →
     PreviewTask.message task = Some message →
     is_Some (sadTalkerPanel w) →
     sadTalkerPanel w = Some (str_replace (lit "SadTalker: ") [] message) ∧
     (∀ rest, message = lit "SadTalker: " ++ rest →
              sadTalkerPanel w = Some rest) ∧
     (includes (lit "SadTalker: ") message = false →
      sadTalkerPanel w = Some message) ∧
     (includes (lit "SadTalker: ") message = true →
      ∃ before after,
        message = before ++ lit "SadTalker: " ++ after ∧
        sadTalkerPanel w = Some (before ++ after) ∧
        ∀ n, n < length before →
             startsWith (lit "SadTalker: ") (drop n message) = false)).
Proof.
  unfold sadTalkerPanel, isSadTalkerStage. split.
  - destruct (currentTask w) as [task|].
    + destruct (strictEq _ _) eqn:Es; cbn [andb].
      * apply strictEq_iff in Es.
        destruct (PreviewTask.message task) as [message|] eqn:Em.
        -- destruct (includes _ message) eqn:Ei.
           ++ split; [intros _|by eexists].
              apply includes_iff in Ei as (before & after & ->).
              by exists task, (before ++ lit "SadTalker" ++ after),
                        before, after.
           ++ split; [by intros [? ?]|].
              intros (t & m & before & after & [= <-] & _ & Hm & ->).
              rewrite Em in Hm. injection Hm as ->.
              assert (includes (lit "SadTalker")
                        (before ++ lit "SadTalker" ++ after) = true) as Hi
                by (apply includes_iff; eauto).
              congruence.
        -- split; [by intros [? ?]|].
           intros (t & m & ? & ? & [= <-] & _ & Hm & _). congruence.
      * apply strictEq_false_iff in Es.
        split; [by intros [? ?]|].
        intros (t & m & ? & ? & [= <-] & Hs & _). congruence.
    + split; [by intros [? ?]|]. intros (t & ? & ? & ? & [=] & _).
  - intros task message -> Hm. rewrite Hm.
    destruct (strictEq _ _ && includes _ message); [|by intros [? ?]].
    intros _. split_and!.
    + reflexivity.
    + intros rest ->. by rewrite str_replace_prefix.
    + intros Hi. by rewrite str_replace_absent.
    + intros Hi.
      destruct (str_replace_first (lit "SadTalker: ") [] message Hi)
        as (before & after & Heq & Hr & Hmin).
      exists before, after. by rewrite Hr.
Qed.

Lemma sadTalker_panel_witness :
  let w := step Samples.pollingWorld
             (PollResumed 0 (Samples.answered Samples.sadTalkerTask)) in
  sadTalkerPanel w = Some (lit "Rendering frames 12/48").
Proof.
  intros w.
  destruct (sadTalker_panel w) as [Hshown Htext].
  destruct (Htext Samples.sadTalkerTask
              (lit "SadTalker: Rendering frames 12/48")
              eq_refl eq_refl) as (_ & Hrest & _).
  - by eexists.
  - by apply Hrest.
Defined.

(** ** What an answered poll leaves as the current task *)

(** The snapshot of an answered poll becomes the current task as it is,
    whatever its status and whatever was shown before (line 80). *)
Lemma poll_answer_stored (w : World) (pollInterval : nat)
    (response : Response PreviewTask.t) (task : PreviewTask.t) :
  ok response = true → json response = inr task →
  currentTask (step w (PollResumed pollInterval (Fulfilled response)))
    = Some task.
Proof.
  intros Hok Hjson. destruct w. run_handler. rewrite Hok, Hjson. simpl.
  destruct (strictEq (PreviewTask.status task) (lit "completed")).
  - destruct (PreviewTask.video_path task) as [video_path|]; [|done].
    destruct (truthy video_path); [|done].
    by destruct onPreviewGenerated.
  - by destruct (strictEq (PreviewTask.status task) (lit "failed")).
Qed.

End PreviewGeneratorFacts.

(* ===================================================================== *)
(** * Facts about components/BundleInference.tsx *)
(* ===================================================================== *)

Module BundleInferenceFacts.
Import JS Http BundleInference JSFacts.

Local Open Scope Q_scope.

Ltac run_handler :=
  cbv [step exec handle
       runInference_start runInference_catch runInference_resume
       setSelectedBundle setPrompt setInferenceProgress setVideoLoading
       fetch setInterval clearInterval
       gets modify mbind mret M_bind M_ret snd fst
       selectedBundle prompt inferenceProgress videoLoading intervals
       nextIntervalId fetched].

(** ** The updater *)

Lemma progressUpdater_not_running (random : number)
    (prev : InferenceProgress) :
  status prev ≠ running → progressUpdater random prev = prev.
Proof. unfold progressUpdater. by destruct (status prev). Qed.

Lemma progressUpdater_progress (random : number)
    (prev : InferenceProgress) :
  status prev = running →
  progress (progressUpdater random prev) =
    Qmin (progress prev + random * 15) 90.
Proof. unfold progressUpdater. by intros ->. Qed.

Lemma progressUpdater_status (random : number) (prev : InferenceProgress) :
  status (progressUpdater random prev) = status prev.
Proof. unfold progressUpdater. by destruct (status prev) eqn:E. Qed.

Lemma progressUpdater_le (random : number) (prev : InferenceProgress) :
  0 <= random → inRange prev →
  progress prev <= progress (progressUpdater random prev).
Proof.
  intros Hr (H0 & H100 & H90 & _).
  destruct (decide (status prev = running)) as [Hs|Hs].
  - rewrite progressUpdater_progress by done.
    apply Q.min_glb; [lra | by apply H90].
  - rewrite progressUpdater_not_running by done. lra.
Qed.

Lemma progressUpdater_inRange (random : number)
    (prev : InferenceProgress) :
  0 <= random → inRange prev → inRange (progressUpdater random prev).
Proof.
  intros Hr Hprev.
  destruct (decide (status prev = running)) as [Hs|Hs].
  - pose proof (progressUpdater_le random prev Hr Hprev) as Hle.
    destruct Hprev as (H0 & H100 & H90 & _).
    rewrite progressUpdater_progress in Hle by done.
    unfold inRange.
    rewrite progressUpdater_progress, progressUpdater_status by done.
    pose proof (Q.le_min_r (progress prev + random * 15) 90).
    split_and!; [lra | lra | intros _; lra | congruence].
  - by rewrite progressUpdater_not_running.
Qed.

(** ** The events *)

Lemma step_tick (w : World) (id : nat) (random : number) :
  inferenceProgress (step w (IntervalFired id random)) =
  match intervals w !! id with
  | Some _ => progressUpdater random (inferenceProgress w)
  | None => inferenceProgress w
  end.
Proof. destruct w. run_handler. by destruct (_ !! id). Qed.

Lemma inRange_mount : inRange (inferenceProgress mount).
Proof. unfold inRange. simpl. split_and!; [lra | lra | done | intros _; lra]. Qed.

Lemma inRange_started :
  inRange {| status := running; progress := 0;
             message := lit "Starting inference...";
             result := None; error := None |}.
Proof.
  unfold inRange. simpl. split_and!; [lra | lra | intros _; lra | done].
Qed.

(** Once [runInference] resumes, the run is over. *)
Lemma resumed_terminal (w : World) (progressInterval : nat)
    (r : Settled Body) :
  let p := inferenceProgress (step w (RunResumed progressInterval r)) in
  (status p = completed ∧ progress p = 100) ∨
  (status p = error_ ∧ progress p = 0).
Proof.
  destruct r as [message | [[] [message | body]]]; simpl; auto.
Qed.

Lemma step_inRange (w : World) (e : Event) :
  wellFormed e → inRange (inferenceProgress w) →
  inRange (inferenceProgress (step w e)).
Proof.
  intros He Hw. destruct e as [b|v| |id random|pid r].
  - done.
  - done.
  - destruct w as [[b|] p ? ? ? ? ?]; [|done].
    run_handler. destruct (truthy (trim p)); [|done].
    apply inRange_started.
  - rewrite step_tick. destruct (_ !! id); [|done].
    destruct He as [He _]. by apply progressUpdater_inRange.
  - destruct (resumed_terminal w pid r) as [[Hs Hp] | [Hs Hp]];
      unfold inRange; rewrite Hs, Hp; split_and!; try lra; done.
Qed.

(** A click on "Run Inference" starts a run at progress 0, or does
    nothing. *)
Lemma step_run_clicked (w : World) :
  inferenceProgress (step w RunClicked) = inferenceProgress w ∨
  (status (inferenceProgress (step w RunClicked)) = running ∧
   progress (inferenceProgress (step w RunClicked)) = 0).
Proof.
  destruct w as [[b|] p ? ? ? ? ?]; [|by left].
  run_handler. destruct (truthy (trim p)); [by right | by left].
Qed.

Lemma run_inRange (es : list Event) :
  Forall wellFormed es → inRange (inferenceProgress (run mount es)).
Proof.
  unfold run. induction es as [|e es IH] using rev_ind; intros Hes.
  - apply inRange_mount.
  - apply Forall_app in Hes as [Hes He]. apply Forall_inv in He.
    rewrite foldl_app. simpl. apply step_inRange; [done | by apply IH].
Qed.

(** ** The percentage on the progress bar *)

Lemma displayedPercent_le (p p' : InferenceProgress) :
  progress p <= progress p' →
  (displayedPercent p ≤ displayedPercent p')%Z.
Proof. intros H. apply Qfloor_resp_le. lra. Qed.

Lemma displayedPercent_range (p : InferenceProgress) :
  inRange p → (0 ≤ displayedPercent p ≤ 100)%Z.
Proof.
  intros (H0 & H100 & _ & _). unfold displayedPercent. split.
  - change 0%Z with (Qfloor 0). apply Qfloor_resp_le. lra.
  - change 100%Z with (Qfloor (100 + (1 # 2))). apply Qfloor_resp_le. lra.
Qed.

(** ** C2 *)

(** The simulated progress need not be an integer: "Run Inference" is
    clicked and the progress interval ticks once with [Math.random()]
    giving 0.5.  The run is going and its progress is 7.5. *)
Lemma simulated_progress_fractional :
  let p := inferenceProgress (run mount Samples.tickedOnce) in
  status p = running ∧ progress p == 15 # 2 ∧ ¬ isInteger (progress p).
Proof.
  split_and!.
  - reflexivity.
  - reflexivity.
  - intros [z H].
    assert (15 # 2 == inject_Z z) as H'
      by (rewrite <- H; by vm_compute).
    unfold Qeq in H'. simpl in H'. lia.
Qed.

(** The simulated inference.  In every state the progress
    is a number between 0 and 100, at most 90 while the run is going,
    and need not be an integer; the percentage printed on the progress
    bar is that number rounded, an integer between 0 and 100.  Every
    tick of the progress interval produces a progress greater than or
    equal to the previous one; and between any two successive states
    that are both non-terminal the progress does not decrease, whatever
    the event the component lets through. *)
Lemma simulated_progress_monotone (es : list Event) (e : Event) :
  Forall wellFormed es → wellFormed e →
  let w := run mount es in
  let p := inferenceProgress w in
  let p' := inferenceProgress (step w e) in
  0 <= progress p ∧ progress p <= 100 ∧
  (status p = running → progress p <= 90) ∧
  (0 ≤ displayedPercent p ≤ 100)%Z ∧
  (isTick e →
   progress p <= progress p' ∧
   (displayedPercent p ≤ displayedPercent p')%Z) ∧
  (enabled w e → ¬ terminal p → ¬ terminal p' →
   progress p <= progress p' ∧
   (displayedPercent p ≤ displayedPercent p')%Z).
Proof.
  intros Hes He w p p'. subst p p'.
  pose proof (run_inRange es Hes) as Hp. fold w in Hp.
  assert (isTick e →
          progress (inferenceProgress w)
            <= progress (inferenceProgress (step w e))) as Htick.
  { destruct e as [b|v| |id random|pid r]; try done. intros _.
    rewrite step_tick. destruct (_ !! id); [|apply Qle_refl].
    destruct He as [He _]. by apply progressUpdater_le. }
  pose proof (displayedPercent_range _ Hp) as [Hd0 Hd100].
  destruct Hp as (H0 & H100 & H90 & Hidle). split_and!; try done.
  - intros Ht. split; [by apply Htick|].
    by apply displayedPercent_le, Htick.
  - intros Hen Hnt Hnt'.
    assert (progress (inferenceProgress w)
              <= progress (inferenceProgress (step w e))) as Hle;
      [|split; [done | by apply displayedPercent_le]].
    destruct e as [b|v| |id random|pid r].
    + apply Qle_refl.
    + apply Qle_refl.
    + destruct (step_run_clicked w) as [-> | [_ ->]]; [apply Qle_refl|].
      apply Hidle. simpl in Hen. unfold runButtonEnabled in Hen.
      apply andb_prop in Hen as [_ Hen].
      apply negb_true_iff, bool_decide_eq_false in Hen.
      unfold terminal in Hnt.
      destruct (status (inferenceProgress w)); naive_solver.
    + by apply Htick.
    + destruct (resumed_terminal w pid r) as [[H _]|[H _]];
        unfold terminal in Hnt'; naive_solver.
Qed.

(** C2, as stated, fails twice.  In the simulated inference the
    progress is not an integer: after one tick with [Math.random()]
    giving 0.5 it is 7.5.  And the progress the client shows for a polled
    task does go down between two successive observations with a
    non-terminal status: two ticks of the poll timer put two status
    requests in flight, and when the later one (progress 60) is answered
    before the earlier one (progress 30), the component shows 60 and then
    30. *)
Lemma progress_fractional_or_decreasing :
  (let p := inferenceProgress (run mount Samples.tickedOnce) in
   status p = running ∧ progress p == 15 # 2 ∧ ¬ isInteger (progress p)) ∧
  (let snapshot progress :=
     Samples.task (lit "generating_video") progress None None None None in
   let v := PreviewGenerator.run Samples.pollingWorld
              [PreviewGenerator.IntervalFired 0;
               PreviewGenerator.IntervalFired 0] in
   let v1 := PreviewGenerator.step v
               (PreviewGenerator.PollResumed 0
                  (Samples.answered (snapshot 60))) in
   let v2 := PreviewGenerator.step v1
               (PreviewGenerator.PollResumed 0
                  (Samples.answered (snapshot 30))) in
   PreviewGenerator.fetched v =
     [PreviewGenerator.statusRequest (lit "t1");
      PreviewGenerator.statusRequest (lit "t1");
      PreviewGeneratorView.generateRequest (lit " Hello world ")] ∧
   PreviewGenerator.currentTask v1 = Some (snapshot 60) ∧
   PreviewGenerator.currentTask v2 = Some (snapshot 30) ∧
   PreviewGenerator.isGenerating v2 = true ∧
   is_Some (PreviewGenerator.intervals v2 !! 0%nat) ∧
   ¬ (60 <= 30)).
Proof.
  split; [exact simulated_progress_fractional|].
  split_and!; try reflexivity.
  - by eexists.
  - intros H. by vm_compute in H.
Qed.

(** C2, amended.  For a polled task the client shows the progress of the
    snapshot answered last, exactly as it was received (an integer
    between 0 and 100 whenever the server sends one), whatever was shown
    before: what it shows is non-decreasing when the answers arrive in
    the order of their progress, and goes down when they do not.  In the
    simulated inference the progress is a number between 0 and 100, at
    most 90 while the run is going, that need not be an integer; the
    percentage printed on the progress bar is that number rounded, an
    integer between 0 and 100.  Every tick of the progress interval
    produces a progress greater than or equal to the previous one; and
    between any two successive states that are both non-terminal the
    progress does not decrease, whatever the event the component lets
    through. *)
Theorem progress_as_observed (v : PreviewGenerator.World)
    (pollInterval : nat) (response : Response PreviewTask.t)
    (task : PreviewTask.t) (es : list Event) (e : Event) :
  ok response = true → json response = inr task →
  Forall wellFormed es → wellFormed e →
  (let v' := PreviewGenerator.step v
               (PreviewGenerator.PollResumed pollInterval
                  (Fulfilled response)) in
   PreviewGenerator.currentTask v' = Some task ∧
   PreviewTask.progress <$> PreviewGenerator.currentTask v'
     = Some (PreviewTask.progress task)) ∧
  (let w := run mount es in
   let p := inferenceProgress w in
   let p' := inferenceProgress (step w e) in
   0 <= progress p ∧ progress p <= 100 ∧
   (status p = running → progress p <= 90) ∧
   (0 ≤ displayedPercent p ≤ 100)%Z ∧
   (isTick e →
    progress p <= progress p' ∧
    (displayedPercent p ≤ displayedPercent p')%Z) ∧
   (enabled w e → ¬ terminal p → ¬ terminal p' →
    progress p <= progress p' ∧
    (displayedPercent p ≤ displayedPercent p')%Z)).
Proof.
  intros Hok Hjson Hes He. split.
  - cbv zeta.
    rewrite (PreviewGeneratorFacts.poll_answer_stored v pollInterval
               response task Hok Hjson).
    by split.
  - by apply simulated_progress_monotone.
Qed.

Lemma progress_as_observed_witness :
  let later :=
    Samples.task (lit "generating_video") 60 None None None None in
  let v' := PreviewGenerator.step Samples.pollingWorld
              (PreviewGenerator.PollResumed 0 (Samples.answered later)) in
  let w := run mount Samples.inferring in
  let w' := step w (IntervalFired 0 (1 # 2)) in
  PreviewTask.progress <$> PreviewGenerator.currentTask v' = Some 60 ∧
  progress (inferenceProgress w) <= progress (inferenceProgress w') ∧
  (displayedPercent (inferenceProgress w)
     ≤ displayedPercent (inferenceProgress w'))%Z.
Proof.
  intros later v' w w'.
  assert (Forall wellFormed Samples.inferring) as Hes
    by (repeat constructor).
  assert (wellFormed (IntervalFired 0 (1 # 2))) as He
    by (split; lra).
  destruct (progress_as_observed Samples.pollingWorld 0
              {| ok := true; json := inr later |} later
              Samples.inferring (IntervalFired 0 (1 # 2))
              eq_refl eq_refl Hes He)
    as [[_ Hpoll] (_ & _ & _ & _ & Htick & _)].
  split; [exact Hpoll | by apply Htick].
Defined.

(** ** C3 *)

(** The updater of the progress interval checks the status first:
    on a state that is not running it returns that state, whatever the
    random number.  So a tick that arrives when the run is no longer
    going changes nothing, nor does any series of such ticks; and once
    [runInference] has resumed after its request, the run is no longer
    going: it has completed or failed. *)
Lemma late_update_discarded (w : World) (id : nat) (random : number)
    (ticks : list Event) :
  status (inferenceProgress w) ≠ running →
  progressUpdater random (inferenceProgress w) = inferenceProgress w ∧
  inferenceProgress (step w (IntervalFired id random))
    = inferenceProgress w ∧
  (Forall isTick ticks →
   inferenceProgress (run w ticks) = inferenceProgress w) ∧
  (∀ w0 progressInterval r,
     terminal (inferenceProgress (step w0 (RunResumed progressInterval r)))
     ∧ status (inferenceProgress (step w0 (RunResumed progressInterval r)))
         ≠ running).
Proof.
  intros Hw. split_and!.
  - by apply progressUpdater_not_running.
  - rewrite step_tick. destruct (_ !! id); [|done].
    by apply progressUpdater_not_running.
  - revert w Hw. induction ticks as [|e ticks IH]; intros w Hw Hticks;
      [done|].
    apply Forall_cons in Hticks as [He Hticks].
    destruct e as [b|v| |id' random'|pid r]; try done.
    assert (inferenceProgress (step w (IntervalFired id' random'))
            = inferenceProgress w) as Hstep.
    { rewrite step_tick. destruct (_ !! id'); [|done].
      by apply progressUpdater_not_running. }
    simpl. rewrite IH; [done | by rewrite Hstep | done].
  - intros w0 pid r. unfold terminal.
    destruct (resumed_terminal w0 pid r) as [[H _]|[H _]];
      rewrite H; split; auto; done.
Qed.

(** C3, on the code.  The updater does check the status, and a tick that
    arrives while the status is 'error' changes nothing.  But only a
    fulfilled request reaches [clearInterval] (line 108): a rejected one
    takes [runInference] to its [catch] block past it, so the progress
    interval of the failed run stays live.  The button is enabled again,
    a second click starts a new run - and the next tick of the interval
    of the first run passes the check and overwrites the progress and the
    message of the second. *)
Theorem stale_tick_overwrites_new_run :
  let failed := run mount Samples.inferenceFailed in
  let again := step failed RunClicked in
  let late := step again (IntervalFired 0 (1 # 2)) in
  (status (inferenceProgress failed) = error_ ∧
   is_Some (intervals failed !! 0%nat) ∧
   inferenceProgress (step failed (IntervalFired 0 (1 # 2)))
     = inferenceProgress failed) ∧
  (runButtonEnabled failed = true ∧
   inferenceProgress again = BundleInferenceView.startingProgress ∧
   intervals again !! 1%nat = Some 500%Z) ∧
  (status (inferenceProgress late) = running ∧
   progress (inferenceProgress late) == 15 # 2 ∧
   message (inferenceProgress late) = lit "Loading bundle..." ∧
   inferenceProgress late ≠ inferenceProgress again).
Proof.
  split_and!; try reflexivity.
  - by eexists.
  - intros H. apply (f_equal message) in H. by vm_compute in H.
Qed.

Example late_update_discarded_example :
  let w := run mount Samples.inferenceFailed in
  is_Some (intervals w !! 0%nat) ∧
  inferenceProgress
    (run w [IntervalFired 0 (1 # 2); IntervalFired 0 (1 # 3)])
    = inferenceProgress w.
Proof.
  intros w. split; [by eexists|].
  destruct (late_update_discarded w 0 (1 # 2)
              [IntervalFired 0 (1 # 2); IntervalFired 0 (1 # 3)])
    as (_ & _ & Hticks & _).
  - by vm_compute.
  - apply Hticks. by repeat constructor.
Defined.

End BundleInferenceFacts.

(* ===================================================================== *)
(** * Facts about app/wizard/image/page.tsx *)
(* ===================================================================== *)

Module ImageUploadPageFacts.
Import JS ImageUploadPage JSFacts.

(** The jest test "handles successful image upload" answers the upload
    with [original_size: [800, 600]] and [output_size: [512, 512]] and
    expects the texts '600 × 800 pixels' and '512 × 512 pixels'. *)
Example test_original_size :
  textContent (originalSizeLine Samples.uploaded)
  = lit "600 " ++ [215%N] ++ lit " 800 pixels".
Proof. by vm_compute. Qed.

Example test_prepared_size :
  textContent (preparedSizeLine Samples.uploaded)
  = lit "512 " ++ [215%N] ++ lit " 512 pixels".
Proof. by vm_compute. Qed.

(** ** Decimal numerals *)

Lemma string_of_uint_no_space (d : Decimal.uint) :
  32%N ∉ lit (NilEmpty.string_of_uint d).
Proof.
  induction d; simpl; try rewrite lit_String;
    rewrite ?not_elem_of_cons; try (split; [by vm_compute | done]).
  rewrite lit_empty. apply not_elem_of_nil.
Qed.

Lemma showZ_no_space (z : Z) : 32%N ∉ showZ z.
Proof.
  unfold showZ.
  assert (∀ d, 32%N ∉ lit (NilZero.string_of_uint d)) as Hu.
  { intros d. destruct d; try apply string_of_uint_no_space.
    apply (string_of_uint_no_space (Decimal.D0 Decimal.Nil)). }
  destruct (Z.to_int z) as [d|d]; simpl.
  - apply Hu.
  - rewrite lit_String, not_elem_of_cons. split; [by vm_compute|apply Hu].
Qed.

Lemma showZ_inj (a b : Z) : showZ a = showZ b → a = b.
Proof.
  unfold showZ. intros H. apply lit_inj in H.
  assert (∀ z, Z.to_int z ≠ Decimal.Pos Decimal.Nil ∧
               Z.to_int z ≠ Decimal.Neg Decimal.Nil) as Hnn.
  { intros [|p|p]; simpl; split; try done;
      intros [= E]; by apply (Unsigned.to_uint_nonnil p). }
  assert (Some (Z.to_int a) = Some (Z.to_int b)) as E.
  { destruct (Hnn a), (Hnn b).
    rewrite <- (NilZero.isi (Z.to_int a)), <- (NilZero.isi (Z.to_int b))
      by done.
    by rewrite H. }
  injection E as E.
  rewrite <- (DecimalZ.of_to a), <- (DecimalZ.of_to b). by rewrite E.
Qed.

(** Two texts that agree and whose first parts have no space agree up
    to their first space. *)
Lemma before_first_space (l1 l2 r1 r2 : jsstring) :
  32%N ∉ l1 → 32%N ∉ l2 →
  l1 ++ 32%N :: r1 = l2 ++ 32%N :: r2 → l1 = l2 ∧ r1 = r2.
Proof.
  revert l2. induction l1 as [|c l1 IH]; intros [|c' l2] H1 H2 E;
    simpl in E.
  - by injection E as ->.
  - injection E as <- _. by apply not_elem_of_cons in H2 as [? _].
  - injection E as -> _. by apply not_elem_of_cons in H1 as [? _].
  - injection E as -> E.
    apply not_elem_of_cons in H1 as [_ H1].
    apply not_elem_of_cons in H2 as [_ H2].
    destruct (IH l2 H1 H2 E) as [-> ->]. done.
Qed.

Lemma times_unfold : times = 32%N :: 215%N :: 32%N :: [].
Proof. by vm_compute. Qed.

(** The text "a × b pixels" determines [a] and [b]. *)
Lemma size_text_inj (a b a' b' : Z) :
  showZ a ++ times ++ showZ b ++ lit " pixels"
  = showZ a' ++ times ++ showZ b' ++ lit " pixels" →
  a = a' ∧ b = b'.
Proof.
  rewrite times_unfold. simpl. intros E.
  apply before_first_space in E as [Ha E]; try apply showZ_no_space.
  injection E as E.
  apply app_inv_tail in E.
  split; by apply showZ_inj.
Qed.

(** ** C10 *)

(** C10.  For a response whose [original_size] is [[w, h]], the
    "Original Size" line shows [h] first and [w] second, the reverse of
    the tuple, and reads "h × w pixels"; the "Prepared Size" line shows
    [output_size] in tuple order.  When [w] and [h] differ, the
    original line is not the tuple-order text "w × h pixels". *)
Theorem original_size_swapped (result : ImageUploadResponse) (w h : Z) :
  original_size result = (w, h) →
  numbers (originalSizeLine result) = [h; w] ∧
  textContent (originalSizeLine result)
    = showZ h ++ times ++ showZ w ++ lit " pixels" ∧
  numbers (preparedSizeLine result)
    = [fst (output_size result); snd (output_size result)] ∧
  textContent (preparedSizeLine result)
    = showZ (fst (output_size result)) ++ times
        ++ showZ (snd (output_size result)) ++ lit " pixels" ∧
  (w ≠ h →
   numbers (originalSizeLine result) ≠ [w; h] ∧
   textContent (originalSizeLine result)
     ≠ showZ w ++ times ++ showZ h ++ lit " pixels").
Proof.
  intros Hsize.
  unfold originalSizeLine, preparedSizeLine, textContent, numbers.
  rewrite Hsize. simpl. rewrite !app_nil_r. split_and!; try done.
  intros Hne. split.
  - intros [= ->]. done.
  - intros E. apply size_text_inj in E as [-> _]. done.
Qed.

Lemma original_size_swapped_witness :
  numbers (originalSizeLine Samples.uploaded) = [600%Z; 800%Z] ∧
  textContent (originalSizeLine Samples.uploaded)
    = lit "600 " ++ [215%N] ++ lit " 800 pixels".
Proof.
  destruct (original_size_swapped Samples.uploaded 800 600 eq_refl)
    as (Hn & Ht & _).
  split; [exact Hn|]. rewrite Ht. by vm_compute.
Defined.

End ImageUploadPageFacts.

(* ===================================================================== *)
(** * More about components/PreviewGenerator.tsx *)
(* ===================================================================== *)

Module PreviewGeneratorMore.
Import JS Http PreviewGenerator PreviewGeneratorView JSFacts.
Import PreviewGeneratorFacts.

(** ** Blank strings *)

Lemma trimStart_nil_iff (s : jsstring) :
  trimStart s = [] ↔ Forall (λ c, isWhiteSpace c = true) s.
Proof.
  induction s as [|c s IH]; simpl.
  - split; [constructor | done].
  - destruct (isWhiteSpace c) eqn:E.
    + rewrite IH. split; [by constructor | by inversion 1].
    + split; [done | inversion 1; congruence].
Qed.

Lemma trimStart_head (s : jsstring) (c : N) (rest : jsstring) :
  trimStart s = c :: rest → isWhiteSpace c = false.
Proof.
  induction s as [|c' s IH]; simpl; [done|].
  destruct (isWhiteSpace c') eqn:E; [done|]. by intros [= <- _].
Qed.

(** [s.trim()] is empty exactly when [s] consists of white space. *)
Lemma trim_nil_iff (s : jsstring) :
  trim s = [] ↔ Forall (λ c, isWhiteSpace c = true) s.
Proof.
  unfold trim. split.
  - intros H. apply (f_equal reverse) in H.
    rewrite reverse_involutive, reverse_nil in H.
    apply trimStart_nil_iff in H. apply Forall_reverse in H.
    rewrite reverse_involutive in H.
    destruct (trimStart s) as [|c rest] eqn:E.
    + by apply trimStart_nil_iff.
    + apply trimStart_head in E. apply Forall_inv in H. congruence.
  - intros H. apply trimStart_nil_iff in H. by rewrite H.
Qed.

(** ** What each event does to the request log *)

Lemma step_fetched (w : World) (e : Event) :
  fetched (step w e) =
  match e with
  | GenerateClicked =>
      if truthy (trim (prompt w)) then generateRequest (prompt w) :: fetched w
      else fetched w
  | IntervalFired id =>
      match intervals w !! id with
      | Some i => statusRequest (taskId i) :: fetched w
      | None => fetched w
      end
  | CancelClicked =>
      match currentTask w with
      | Some task => cancelRequest (PreviewTask.task_id task) :: fetched w
      | None => fetched w
      end
  | _ => fetched w
  end.
Proof.
  destruct e as [value| |r|id|id r| |r].
  - reflexivity.
  - destruct w. run_handler. by destruct (truthy (trim _)).
  - destruct r as [message | [[] [message | data]]]; reflexivity.
  - destruct w. run_handler. by destruct (_ !! id).
  - destruct r as [message | [[] [message | task]]]; try reflexivity.
    run_handler. simpl.
    destruct (strictEq _ (lit "completed")).
    + destruct (PreviewTask.video_path task) as [[|]|]; reflexivity.
    + destruct (strictEq _ (lit "failed")); reflexivity.
  - destruct w as [? ? [task|] ? ? ? ? ? ? ?]; reflexivity.
  - destruct r; reflexivity.
Qed.

(** ** generatePreview: the guard and the reset *)

(** X1.  With a prompt that is empty or all white space, [generatePreview]
    only sets the error 'Please enter a prompt': no request is issued, no
    timer started, and the generating flag, the current task and the
    preview video are left as they were. *)
Theorem blank_prompt_click (w : World) :
  Forall (λ c, isWhiteSpace c = true) (prompt w) →
  let w' := step w GenerateClicked in
  error w' = Some (lit "Please enter a prompt") ∧
  fetched w' = fetched w ∧
  intervals w' = intervals w ∧
  isGenerating w' = isGenerating w ∧
  currentTask w' = currentTask w ∧
  previewVideo w' = previewVideo w.
Proof.
  intros Hblank. apply trim_nil_iff in Hblank.
  destruct w as [p ? ? ? ? ? ? ? ? ?]. simpl in Hblank.
  run_handler. rewrite Hblank. simpl. done.
Qed.

Lemma blank_prompt_click_witness :
  let w := step Samples.pollingWorld
            (PromptChanged (lit "  " ++ [160%N; 9%N])) in
  error (step w GenerateClicked) = Some (lit "Please enter a prompt") ∧
  fetched (step w GenerateClicked) = fetched w.
Proof.
  intros w.
  destruct (blank_prompt_click w) as (He & Hf & _).
  - by repeat constructor.
  - by split.
Defined.

(** X2.  Through an enabled "Generate Preview" button a click always
    starts a generation: exactly one POST is issued, the error, the
    current task and the preview video of the previous generation are
    cleared, the button becomes disabled and "Cancel" appears.  The
    timers of earlier generations are not cleared. *)
Theorem enabled_click_starts (w : World) :
  generateDisabled w = false →
  let w' := step w GenerateClicked in
  fetched w' = generateRequest (prompt w) :: fetched w ∧
  error w' = None ∧ currentTask w' = None ∧ previewVideo w' = None ∧
  generateDisabled w' = true ∧ cancelShown w' = true ∧
  intervals w' = intervals w.
Proof.
  unfold generateDisabled, cancelShown. intros Hen.
  apply orb_false_elim in Hen as [_ Hen]. apply negb_false_iff in Hen.
  destruct w as [p ? ? ? ? ? ? ? ? ?]. simpl in Hen.
  run_handler. rewrite Hen. simpl. done.
Qed.

Lemma enabled_click_starts_witness :
  let w := run Samples.pollingWorld
             [PollResumed 0 (Samples.answered Samples.failedTask)] in
  let w' := step w GenerateClicked in
  is_Some (error w) ∧ is_Some (currentTask w) ∧
  error w' = None ∧ currentTask w' = None ∧ generateDisabled w' = true.
Proof.
  intros w w'.
  destruct (enabled_click_starts w) as (_ & He & Hc & _ & Hd & _).
  - by vm_compute.
  - split_and!; [by eexists | by eexists | done | done | done].
Defined.

(** X3.  When the POST fails, no polling starts: the timers, the request
    log, the current task and the preview video stay as they are, the
    generating flag is cleared and an error is shown - 'Failed to start
    preview generation' for a response that is not ok, the message of the
    thrown error for a rejected request or an unreadable body. *)
Theorem start_failure (w : World) (r : Settled StartData) :
  started r = None →
  let w' := step w (GenerateResumed r) in
  intervals w' = intervals w ∧ nextIntervalId w' = nextIntervalId w ∧
  fetched w' = fetched w ∧
  currentTask w' = currentTask w ∧ previewVideo w' = previewVideo w ∧
  isGenerating w' = false ∧
  (∀ message, r = Rejected message → error w' = Some message) ∧
  (∀ response, r = Fulfilled response → ok response = false →
     error w' = Some (lit "Failed to start preview generation")) ∧
  (∀ response message,
     r = Fulfilled response → ok response = true →
     json response = inl message → error w' = Some message).
Proof.
  destruct r as [message | [[] [message | data]]]; simpl; intros [=];
    split_and!; try done; intros; by simplify_eq/=.
Qed.

Lemma start_failure_witness :
  let w := run (mount true) Samples.clicked in
  let w' := step w (GenerateResumed
                      (Fulfilled {| ok := false; json := inl [] |})) in
  isGenerating w = true ∧ isGenerating w' = false ∧
  intervals w' = intervals w ∧
  error w' = Some (lit "Failed to start preview generation").
Proof.
  intros w w'.
  destruct (start_failure w (Fulfilled {| ok := false; json := inl [] |})
              eq_refl) as (Hi & _ & _ & _ & _ & Hg & _ & He & _).
  split_and!; [done | exact Hg | exact Hi | by eapply He].
Defined.

(** ** pollTaskStatus: the catch block and what a poll overwrites *)

(** X4.  A poll that throws ends the generation with an error: the timer
    is cleared, the generating flag too, the current task and the preview
    video are not touched, and the error shown is 'Failed to get task
    status' for a response that is not ok, the message of the thrown
    error otherwise. *)
Theorem poll_failure (w : World) (id : nat) (r : Settled PreviewTask.t) :
  throws r →
  let w' := step w (PollResumed id r) in
  intervals w' = delete id (intervals w) ∧
  isGenerating w' = false ∧
  currentTask w' = currentTask w ∧ previewVideo w' = previewVideo w ∧
  previewGenerated w' = previewGenerated w ∧ fetched w' = fetched w ∧
  (∀ message, r = Rejected message → error w' = Some message) ∧
  (∀ response, r = Fulfilled response → ok response = false →
     error w' = Some (lit "Failed to get task status")) ∧
  (∀ response message,
     r = Fulfilled response → ok response = true →
     json response = inl message → error w' = Some message).
Proof.
  destruct r as [message | [[] [message | task]]]; simpl; intros Hr;
    try (destruct Hr as [[=] | [? [=]]]);
    split_and!; try done; intros; by simplify_eq/=.
Qed.

Lemma poll_failure_witness :
  let w' := step Samples.pollingWorld
              (PollResumed 0 (Fulfilled {| ok := false; json := inl [] |})) in
  intervals w' = delete 0 (intervals Samples.pollingWorld) ∧
  currentTask w' = currentTask Samples.pollingWorld ∧
  error w' = Some (lit "Failed to get task status").
Proof.
  intros w'.
  destruct (poll_failure Samples.pollingWorld 0
              (Fulfilled {| ok := false; json := inl [] |}))
    as (Hi & _ & Hc & _ & _ & _ & _ & He & _).
  - by left.
  - split_and!; [exact Hi | exact Hc | by eapply He].
Defined.

(** X5.  Cancelling does not stick.  After a fulfilled cancel has cleared
    the current task, the next answered poll of a timer that is still
    live puts its snapshot back as the current task, while the generating
    flag stays cleared: the status section shows the task again and the
    "Cancel" button is gone. *)
Theorem cancel_does_not_stick (w : World) (id : nat) (timer : Interval)
    (cancelled : Response ()) (response : Response PreviewTask.t)
    (task : PreviewTask.t) :
  intervals w !! id = Some timer →
  ok response = true → json response = inr task →
  let w1 := step w (CancelResumed (Fulfilled cancelled)) in
  let w2 := step w1 (IntervalFired id) in
  let w3 := step w2 (PollResumed id (Fulfilled response)) in
  currentTask w1 = None ∧
  fetched w2 = statusRequest (taskId timer) :: fetched w ∧
  currentTask w3 = Some task ∧
  cancelShown w3 = false.
Proof.
  intros Hlive Hok Hjson. destruct response as [isok body].
  simpl in Hok, Hjson. subst. destruct w. simpl in Hlive.
  split_and!.
  - reflexivity.
  - run_handler. rewrite Hlive. reflexivity.
  - run_handler. rewrite Hlive. simpl.
    destruct (strictEq _ (lit "completed")).
    + destruct (PreviewTask.video_path task) as [[|]|]; reflexivity.
    + destruct (strictEq _ (lit "failed")); reflexivity.
  - unfold cancelShown. run_handler. rewrite Hlive. simpl.
    destruct (strictEq _ (lit "completed")).
    + destruct (PreviewTask.video_path task) as [[|]|]; reflexivity.
    + destruct (strictEq _ (lit "failed")); reflexivity.
Qed.

Lemma cancel_does_not_stick_witness :
  let w := run Samples.pollingWorld
             [CancelClicked; CancelResumed (Samples.answered ());
              IntervalFired 0;
              PollResumed 0 (Samples.answered Samples.sadTalkerTask)] in
  currentTask w = Some Samples.sadTalkerTask ∧ cancelShown w = false.
Proof.
  destruct (cancel_does_not_stick
              (step Samples.pollingWorld CancelClicked) 0
              {| delay := 2000; taskId := lit "t1" |}
              {| ok := true; json := inr () |}
              {| ok := true; json := inr Samples.sadTalkerTask |}
              Samples.sadTalkerTask eq_refl eq_refl eq_refl)
    as (_ & _ & Hc & Hs).
  by split.
Defined.

(** ** The ids the client polls *)

Lemma startedIds_snoc (es : list Event) (e : Event) (task_id : jsstring) :
  task_id ∈ startedIds es → task_id ∈ startedIds (es ++ [e]).
Proof.
  unfold startedIds. rewrite omap_app, elem_of_app. by left.
Qed.

Lemma run_snoc (w : World) (es : list Event) (e : Event) :
  run w (es ++ [e]) = step (run w es) e.
Proof. unfold run. by rewrite foldl_app. Qed.

Lemma timers_started (cb : bool) (es : list Event) (id : nat)
    (timer : Interval) :
  intervals (run (mount cb) es) !! id = Some timer →
  taskId timer ∈ startedIds es.
Proof.
  revert id timer. induction es as [|e es IH] using rev_ind;
    intros id timer.
  - unfold run. simpl. by rewrite lookup_empty.
  - rewrite run_snoc, step_intervals.
    assert (intervals (run (mount cb) es) !! id = Some timer →
            taskId timer ∈ startedIds (es ++ [e])) as Hold
      by (intros H; by eapply startedIds_snoc, IH).
    destruct e as [value| |r|id'|id' r| |r]; try done.
    + destruct (started r) as [data|] eqn:E; [|done].
      destruct (decide (nextIntervalId (run (mount cb) es) = id))
        as [<-|Hne].
      * rewrite lookup_insert_eq. intros [= <-]. simpl.
        unfold startedIds. rewrite omap_app, elem_of_app. right.
        simpl. rewrite E. simpl. by apply list_elem_of_singleton.
      * by rewrite lookup_insert_ne.
    + destruct (stopsPolling r); [|done].
      intros H. apply lookup_delete_Some in H as [_ H]. by apply Hold.
Qed.

Lemma gets_started (cb : bool) (es : list Event) (request : Request) :
  request ∈ fetched (run (mount cb) es) →
  method request = GET →
  ∃ task_id, task_id ∈ startedIds es ∧ request = statusRequest task_id.
Proof.
  intros Hin Hget.
  revert Hin. induction es as [|e es IH] using rev_ind.
  - unfold run. simpl. by intros ?%elem_of_nil.
  - rewrite run_snoc, step_fetched.
    assert (request ∈ fetched (run (mount cb) es) →
            ∃ task_id, task_id ∈ startedIds (es ++ [e]) ∧
                       request = statusRequest task_id) as Hold.
    { intros H. destruct (IH H) as (task_id & Hs & ->).
      exists task_id. split; [by apply startedIds_snoc | done]. }
    destruct e as [value| |r|id|id r| |r]; try done.
    + destruct (truthy (trim _)); [|done].
      intros [->|H]%elem_of_cons; [done | by apply Hold].
    + destruct (_ !! id) as [timer|] eqn:E; [|done].
      intros [->|H]%elem_of_cons; [|by apply Hold].
      exists (taskId timer). split; [|done].
      by eapply startedIds_snoc, timers_started.
    + destruct (currentTask _) as [task|]; [|done].
      intros [->|H]%elem_of_cons; [done | by apply Hold].
Qed.

(** X6.  The client only ever polls task ids the server has handed out:
    in every state reached from the mounted component, each live timer
    polls the [task_id] of an answered POST, and each GET in the request
    log is the status request for such an id. *)
Theorem polls_only_started_ids (cb : bool) (es : list Event) :
  let w := run (mount cb) es in
  (∀ id timer, intervals w !! id = Some timer →
               taskId timer ∈ startedIds es) ∧
  (∀ request, request ∈ fetched w → method request = GET →
     ∃ task_id, task_id ∈ startedIds es ∧ request = statusRequest task_id).
Proof.
  split.
  - intros id timer. apply timers_started.
  - intros request. apply gets_started.
Qed.

Lemma polls_only_started_ids_witness :
  let es := Samples.generating in
  let es' := Samples.generating ++ [IntervalFired 0] in
  startedIds es = [lit "t1"] ∧
  (∀ timer, intervals (run (mount true) es) !! 0%nat = Some timer →
            taskId timer ∈ startedIds es) ∧
  ∃ task_id, task_id ∈ startedIds es' ∧
             statusRequest (lit "t1") = statusRequest task_id.
Proof.
  intros es es'. split; [by vm_compute|]. split.
  - intros timer. apply (polls_only_started_ids true es).
  - apply (polls_only_started_ids true es').
    + vm_compute. apply list_elem_of_here.
    + reflexivity.
Defined.

(** ** The status line *)




(** X8.  For a status outside the seven the component knows - 'cancelled'
    is one - a task is shown without an icon, and without a message from
    the backend its status line reads 'Processing...'. *)
Theorem unknown_status_shown_as_processing (w : World)
    (task : PreviewTask.t) :
  currentTask w = Some task →
  PreviewTask.status task ∉
    [lit "started"; lit "generating_text"; lit "generating_speech";
     lit "generating_video"; lit "finalizing"; lit "completed";
     lit "failed"] →
  getStatusIcon w = None ∧
  (truthy_opt (PreviewTask.message task) = false →
   getStatusMessage w = lit "Processing...").
Proof.
  intros Htask Hstatus.
  unfold getStatusIcon, getStatusMessage. rewrite Htask.
  rewrite !not_elem_of_cons in Hstatus.
  destruct Hstatus as (H1 & H2 & H3 & H4 & H5 & H6 & H7 & _).
  apply strictEq_false_iff in H1, H2, H3, H4, H5, H6, H7.
  rewrite H1, H2, H3, H4, H5, H6, H7. simpl.
  split; [done|]. by intros ->.
Qed.

Lemma unknown_status_shown_as_processing_witness :
  let w := step Samples.pollingWorld
             (PollResumed 0 (Samples.answered Samples.cancelledTask)) in
  getStatusIcon w = None ∧ getStatusMessage w = lit "Processing...".
Proof.
  intros w.
  destruct (unknown_status_shown_as_processing w Samples.cancelledTask)
    as [Hi Hm].
  - reflexivity.
  - rewrite !not_elem_of_cons.
    split_and!; try (intros H; vm_compute in H; discriminate).
    apply not_elem_of_nil.
  - split; [exact Hi | by apply Hm].
Defined.

End PreviewGeneratorMore.

(* ===================================================================== *)
(** * More about components/BundleInference.tsx *)
(* ===================================================================== *)

Module BundleInferenceMore.
Import JS Http BundleInference BundleInferenceView JSFacts.
Import BundleInferenceFacts.

Local Open Scope Q_scope.

(** ** runInference: the guard and the start *)

(** X9.  Without a selected bundle, or with a prompt that is empty or all
    white space, [runInference] does nothing at all: the state, the
    timers and the request log are exactly as before. *)
Theorem run_inference_guard (w : World) :
  selectedBundle w = None ∨
  Forall (λ c, isWhiteSpace c = true) (prompt w) →
  step w RunClicked = w.
Proof.
  intros [Hb | Hp].
  - destruct w. simpl in Hb. subst. reflexivity.
  - apply PreviewGeneratorMore.trim_nil_iff in Hp.
    destruct w as [[b|] p ? ? ? ? ?]; [|reflexivity].
    simpl in Hp. run_handler. rewrite Hp. reflexivity.
Qed.

Lemma run_inference_guard_witness :
  let w := run mount [BundleSelected Samples.bundle;
                      PromptChanged (lit "   ")] in
  step w RunClicked = w.
Proof.
  intros w. apply run_inference_guard. right.
  vm_compute. by repeat constructor.
Defined.

(** X10.  With a bundle selected and a prompt that is not blank,
    [runInference] replaces the whole progress state - the result and the
    error of an earlier run included - by 'running' at 0 with the text
    'Starting inference...', starts one 500 ms progress interval and
    issues one POST to the inference route of the selected persona,
    whose body carries the trimmed prompt.  The "Run Inference" button is
    disabled from then on. *)
Theorem run_inference_starts (w : World) (bundle : Bundle) :
  selectedBundle w = Some bundle → trim (prompt w) ≠ [] →
  let w' := step w RunClicked in
  inferenceProgress w' = startingProgress ∧
  intervals w' = <[nextIntervalId w := 500%Z]> (intervals w) ∧
  fetched w' = inferenceRequest bundle (prompt w) :: fetched w ∧
  runButtonEnabled w' = false.
Proof.
  intros Hb Hp. apply truthy_iff in Hp.
  destruct w as [b p ? ? ? ? ?]. simpl in Hb, Hp. subst b.
  unfold runButtonEnabled. run_handler. rewrite Hp. simpl.
  split_and!; try done. by rewrite andb_false_r.
Qed.

Lemma run_inference_starts_witness :
  let w := run mount (Samples.inferenceFailed
                        ++ [PromptChanged (lit " again ")]) in
  let w' := step w RunClicked in
  status (inferenceProgress w) = error_ ∧
  inferenceProgress w' = startingProgress ∧
  fetched w' = inferenceRequest Samples.bundle (lit " again ") :: fetched w.
Proof.
  intros w w'.
  destruct (run_inference_starts w Samples.bundle) as (Hp & _ & Hf & _).
  - reflexivity.
  - by vm_compute.
  - by split_and!.
Defined.

(** ** runInference: how it ends *)

(** X11.  A fulfilled inference request always clears the progress
    interval of its run, whatever the response; a rejected one never
    does.  The interval of a run whose request was rejected therefore
    stays live through every later event that is not a fulfilled
    settlement for that same interval. *)
Theorem rejected_run_keeps_interval (w : World) (id : nat)
    (es : list Event) :
  (∀ response,
     intervals (step w (RunResumed id (Fulfilled response)))
       = delete id (intervals w)) ∧
  (∀ message,
     intervals (step w (RunResumed id (Rejected message))) = intervals w) ∧
  (is_Some (intervals w !! id) →
   Forall (λ e, fulfils id e = false) es →
   is_Some (intervals (run w es) !! id)).
Proof.
  split_and!.
  - intros [[] [message | body]]; reflexivity.
  - reflexivity.
  - revert w. induction es as [|e es IH]; intros w Hlive Hes; [done|].
    apply Forall_cons in Hes as [He Hes]. simpl. apply IH; [|done].
    destruct e as [b|v| |id' random|pid r].
    + done.
    + done.
    + destruct w as [[b|] p ip vl ivs next f]; [|done].
      run_handler. destruct (truthy (trim p)); [|done]. simpl in *.
      destruct (decide (next = id)) as [->|Hne].
      * by rewrite lookup_insert_eq.
      * by rewrite lookup_insert_ne.
    + destruct w. run_handler. simpl in *. by destruct (_ !! id').
    + destruct r as [message | [[] [message | body]]]; try done;
        simpl in He; apply bool_decide_eq_false in He;
        destruct w; run_handler; simpl in *;
        by rewrite lookup_delete_ne.
Qed.

Lemma rejected_run_keeps_interval_witness :
  let w := run mount Samples.inferenceFailed in
  is_Some (intervals
             (run w [PromptChanged (lit "again"); RunClicked;
                     IntervalFired 0 (1 # 2);
                     RunResumed 1 (Samples.answered
                                     (ErrorJson None))]) !! 0%nat).
Proof.
  intros w.
  destruct (rejected_run_keeps_interval w 0
              [PromptChanged (lit "again"); RunClicked;
               IntervalFired 0 (1 # 2);
               RunResumed 1 (Samples.answered (ErrorJson None))])
    as (_ & _ & H).
  apply H; [by eexists | by repeat constructor].
Defined.

(** X12.  A run ends in exactly one of two states.  An ok response whose
    body can be read gives 'completed' at progress 100 with that body as
    the result, and switches the video loader on.  Everything else gives
    'error' at progress 0 with the text 'Inference failed', no result,
    and as error the [detail] of a non-ok response when it has a
    non-empty one, 'Inference failed' when it has not, and the message of
    the thrown error for a rejected request or an unreadable body. *)
Theorem run_inference_outcome (w : World) (id : nat) (r : Settled Body) :
  let w' := step w (RunResumed id r) in
  let failed message :=
    inferenceProgress w' =
      {| status := error_; progress := 0;
         message := lit "Inference failed";
         result := None; error := Some message |} ∧
    videoLoading w' = videoLoading w in
  (∀ response body,
     r = Fulfilled response → ok response = true →
     json response = inr body →
     inferenceProgress w' =
       {| status := completed; progress := 100;
          message := lit "Inference completed!";
          result := Some body; error := None |} ∧
     videoLoading w' = true) ∧
  (∀ response body detail,
     r = Fulfilled response → ok response = false →
     json response = inr body → detail_of body = Some detail →
     detail ≠ [] → failed detail) ∧
  (∀ response body,
     r = Fulfilled response → ok response = false →
     json response = inr body → truthy_opt (detail_of body) = false →
     failed (lit "Inference failed")) ∧
  (∀ response message,
     r = Fulfilled response → json response = inl message →
     failed message) ∧
  (∀ message, r = Rejected message → failed message).
Proof.
  intros w' failed. subst w' failed. simpl. split_and!.
  - intros [isok j] body -> Hok Hj. simpl in *. by subst.
  - intros [isok j] body detail -> Hok Hj Hd Hne. simpl in *. subst.
    simpl. by rewrite (or_else_truthy _ _ detail).
  - intros [isok j] body -> Hok Hj Hd. simpl in *. subst.
    simpl. by rewrite or_else_falsy.
  - intros [isok j] message -> Hj. simpl in *. by subst.
  - by intros message ->.
Qed.

Lemma run_inference_outcome_witness :
  let w := run mount Samples.tickedOnce in
  let w' := step w (RunResumed 0
              (Fulfilled {| ok := false;
                            json := inr (ErrorJson (Some [])) |})) in
  error (inferenceProgress w') = Some (lit "Inference failed") ∧
  progress (inferenceProgress w') = 0.
Proof.
  intros w w'.
  destruct (run_inference_outcome w 0
              (Fulfilled {| ok := false;
                            json := inr (ErrorJson (Some [])) |}))
    as (_ & _ & H & _).
  destruct (H _ _ eq_refl eq_refl eq_refl eq_refl) as [Hp _].
  subst w'. rewrite Hp. by split.
Defined.

(** ** The stage text *)

Lemma Qfloor_unique (q : Q) (k : Z) :
  inject_Z k <= q → q < inject_Z k + 1 → Qfloor q = k.
Proof.
  intros Hlo Hhi.
  pose proof (Qfloor_le q) as Hf. pose proof (Qlt_floor q) as Hc.
  rewrite inject_Z_plus in Hc. change (inject_Z 1) with 1 in Hc.
  assert (inject_Z (Qfloor q) < inject_Z (k + 1)) as H1.
  { rewrite inject_Z_plus. change (inject_Z 1) with 1. lra. }
  assert (inject_Z k < inject_Z (Qfloor q + 1)) as H2.
  { rewrite inject_Z_plus. change (inject_Z 1) with 1. lra. }
  rewrite <- Zlt_Qlt in H1, H2. lia.
Qed.

Lemma band_of (q : Q) (k : Z) :
  (0 ≤ k ≤ 3)%Z →
  inject_Z k * 20 <= q → q < (inject_Z k + 1) * 20 →
  band q = Z.to_nat k.
Proof.
  intros Hk Hlo Hhi. unfold band.
  rewrite (Qfloor_unique (q / 20) k); [lia | |].
  - apply Qle_shift_div_l; lra.
  - apply Qlt_shift_div_r; lra.
Qed.

Lemma band_last (q : Q) : 80 <= q → band q = 4%nat.
Proof.
  intros Hq. unfold band.
  assert (4 ≤ Qfloor (q / 20))%Z as H.
  { change 4%Z with (Qfloor 4). apply Qfloor_resp_le.
    apply Qle_shift_div_l; lra. }
  lia.
Qed.

Lemma band_le (q q' : Q) : q <= q' → (band q ≤ band q')%nat.
Proof.
  intros H. unfold band.
  assert (Qfloor (q / 20) ≤ Qfloor (q' / 20))%Z as Hf.
  { apply Qfloor_resp_le. unfold Qdiv.
    apply Qmult_le_compat_r; [exact H | discriminate]. }
  lia.
Qed.

Lemma tick_text (random : number) (prev : InferenceProgress) :
  status prev = running →
  0 <= progress (progressUpdater random prev) →
  stageTexts !! band (progress (progressUpdater random prev))
    = Some (message (progressUpdater random prev)).
Proof.
  intros Hs. unfold progressUpdater. rewrite Hs. simpl.
  set (np := Qmin _ _). intros H0.
  destruct (Qlt_le_dec np 20);
    [rewrite (band_of np 0); [done | lia | unfold inject_Z; lra | unfold inject_Z; lra]|].
  destruct (Qlt_le_dec np 40);
    [rewrite (band_of np 1); [done | lia | unfold inject_Z; lra | unfold inject_Z; lra]|].
  destruct (Qlt_le_dec np 60);
    [rewrite (band_of np 2); [done | lia | unfold inject_Z; lra | unfold inject_Z; lra]|].
  destruct (Qlt_le_dec np 80);
    [rewrite (band_of np 3); [done | lia | unfold inject_Z; lra | unfold inject_Z; lra]|].
  by rewrite band_last.
Qed.

(** X13.  While a run is going, the text a tick sets is one of the five
    stage texts, picked by the new progress in bands of 20 - 'Loading
    bundle...' below 20, ... , 'Finalizing output...' from 80 on - so
    'Processing...' is never shown; and from one tick to the next the
    stage never moves backwards. *)
Theorem stage_text_follows_progress (es : list Event)
    (random1 random2 : number) :
  Forall wellFormed es → 0 <= random1 → 0 <= random2 →
  status (inferenceProgress (run mount es)) = running →
  let p1 := progressUpdater random1 (inferenceProgress (run mount es)) in
  let p2 := progressUpdater random2 p1 in
  stageTexts !! band (progress p1) = Some (message p1) ∧
  stageTexts !! band (progress p2) = Some (message p2) ∧
  (band (progress p1) ≤ band (progress p2))%nat ∧
  message p1 ≠ lit "Processing..." ∧ message p2 ≠ lit "Processing...".
Proof.
  intros Hes Hr1 Hr2 Hs p1 p2.
  pose proof (run_inRange es Hes) as Hp.
  pose proof (progressUpdater_inRange random1 _ Hr1 Hp) as Hp1.
  fold p1 in Hp1.
  pose proof (progressUpdater_inRange random2 _ Hr2 Hp1) as Hp2.
  fold p2 in Hp2.
  assert (status p1 = running) as Hs1
    by (subst p1; by rewrite progressUpdater_status).
  assert (stageTexts !! band (progress p1) = Some (message p1)) as Ht1
    by (apply tick_text; [done | apply Hp1]).
  assert (stageTexts !! band (progress p2) = Some (message p2)) as Ht2
    by (apply tick_text; [done | apply Hp2]).
  assert (∀ i m, stageTexts !! i = Some m → m ≠ lit "Processing...")
    as Hnever.
  { intros i m Hi. apply list_elem_of_lookup_2 in Hi.
    unfold stageTexts in Hi.
    repeat (apply elem_of_cons in Hi as [-> | Hi];
            [intros E; apply lit_inj in E; discriminate|]).
    by apply elem_of_nil in Hi. }
  split_and!; eauto.
  apply band_le. by apply progressUpdater_le.
Qed.

Lemma stage_text_follows_progress_witness :
  let p0 := inferenceProgress (run mount Samples.inferring) in
  let p1 := progressUpdater (1 # 2) p0 in
  let p2 := progressUpdater (14 # 15) p1 in
  message p1 = lit "Loading bundle..." ∧
  message p2 = lit "Generating text...".
Proof.
  intros p0 p1 p2.
  assert (Forall wellFormed Samples.inferring) as Hes
    by (repeat constructor).
  assert (0 <= 1 # 2) as Hr1 by lra.
  assert (0 <= 14 # 15) as Hr2 by lra.
  destruct (stage_text_follows_progress Samples.inferring
              (1 # 2) (14 # 15) Hes Hr1 Hr2 eq_refl) as (H1 & H2 & _).
  fold p0 p1 p2 in H1, H2.
  split; apply (inj Some); [rewrite <- H1 | rewrite <- H2]; reflexivity.
Defined.

(** ** loadBundles *)

(** X14.  However the request for the bundles ends, the loading flag is
    off afterwards.  The list is replaced only by an ok answer whose body
    can be read - by its [bundles], or by the empty list when the body
    has none - and nothing is logged then.  On every failure the list
    shown is kept and the failure is only logged to the console. *)
Theorem load_bundles_settles (w : BundleList.World)
    (r : Settled (option (list Bundle))) :
  let w' := exec (BundleList.loadBundles_resume r) w in
  BundleList.loading w' = false ∧
  BundleList.fetched w' = BundleList.fetched w ∧
  (∀ response data,
     r = Fulfilled response → ok response = true →
     json response = inr data →
     BundleList.bundles w' = default [] data ∧
     BundleList.logged w' = BundleList.logged w) ∧
  ((∀ response data, r = Fulfilled response → ok response = true →
                     json response ≠ inr data) →
   BundleList.bundles w' = BundleList.bundles w ∧
   length (BundleList.logged w') = S (length (BundleList.logged w))).
Proof.
  intros w'. subst w'.
  destruct r as [message | [[] [message | data]]]; simpl;
    split_and!; try done; try (intros; by simplify_eq/=).
  intros H. by destruct (H _ data eq_refl eq_refl).
Qed.

Lemma load_bundles_settles_witness :
  let loading := exec BundleList.loadBundles_start BundleList.mount in
  let w' := exec (BundleList.loadBundles_resume (Samples.answered None))
              loading in
  BundleList.loading loading = true ∧
  BundleList.loading w' = false ∧ BundleList.bundles w' = [].
Proof.
  intros loading w'.
  destruct (load_bundles_settles loading (Samples.answered None))
    as (Hl & _ & Hok & _).
  destruct (Hok _ None eq_refl eq_refl eq_refl) as [Hb _].
  by split_and!.
Defined.

End BundleInferenceMore.

(* ===================================================================== *)
(** * Facts about contexts/WizardContext.tsx *)
(* ===================================================================== *)

Module WizardContextFacts.
Import JS WizardContext JSFacts.

Section Artifacts.
Context {Any : Type}.
Implicit Types (a : UploadedArtifacts Any) (c : Call Any).

Lemma call_keeps_image a c :
  writesImage c = false →
  imageId (call a c) = imageId a ∧
  imageMetadata (call a c) = imageMetadata a.
Proof. by destruct c. Qed.

(** X15.  What an image upload stores in the wizard context stays there:
    after [setImageArtifact(id, metadata)] the image slot holds that id
    and that metadata, through any later calls that set the text or the
    voice slot, until the next [setImageArtifact] or [clearArtifacts];
    and the call leaves the text and voice slots as they were. *)
Theorem image_slot_kept (a : UploadedArtifacts Any) (id : jsstring)
    (metadata : Any) (cs : list (Call Any)) :
  Forall (λ c, writesImage c = false) cs →
  let a' := calls (setImageArtifact id metadata a) cs in
  imageId a' = Some id ∧ imageMetadata a' = Some metadata ∧
  textId (setImageArtifact id metadata a) = textId a ∧
  textMetadata (setImageArtifact id metadata a) = textMetadata a ∧
  voiceId (setImageArtifact id metadata a) = voiceId a ∧
  voiceMetadata (setImageArtifact id metadata a) = voiceMetadata a.
Proof.
  intros Hcs a'. split_and!; try done; subst a'.
  - induction cs as [|c cs IH] using rev_ind; [done|].
    apply Forall_app in Hcs as [Hcs Hc]. apply Forall_inv in Hc.
    unfold calls in *. rewrite foldl_app. simpl.
    destruct (call_keeps_image
                (foldl call (setImageArtifact id metadata a) cs) c Hc)
      as [-> _]. by apply IH.
  - induction cs as [|c cs IH] using rev_ind; [done|].
    apply Forall_app in Hcs as [Hcs Hc]. apply Forall_inv in Hc.
    unfold calls in *. rewrite foldl_app. simpl.
    destruct (call_keeps_image
                (foldl call (setImageArtifact id metadata a) cs) c Hc)
      as [_ ->]. by apply IH.
Qed.

(** X16.  [hasArtifacts] looks at the three ids only, and an empty id
    does not count: it is true exactly when one of the ids is a
    non-empty string.  So it is false on the cleared store, true after
    any setter called with a non-empty id, and still false after a
    setter called with the empty id on a cleared store, although the
    metadata is stored. *)
Theorem hasArtifacts_iff (a : UploadedArtifacts Any) :
  (hasArtifacts a = true ↔
   ∃ id, id ≠ [] ∧
         (textId a = Some id ∨ imageId a = Some id ∨ voiceId a = Some id)) ∧
  hasArtifacts (clearArtifacts (Any := Any)) = false ∧
  (∀ id (metadata : Any), id ≠ [] →
     hasArtifacts (setTextArtifact id metadata a) = true ∧
     hasArtifacts (setImageArtifact id metadata a) = true ∧
     hasArtifacts (setVoiceArtifact id metadata a) = true) ∧
  (∀ metadata : Any,
     hasArtifacts (setImageArtifact [] metadata clearArtifacts) = false ∧
     imageMetadata (setImageArtifact [] metadata clearArtifacts)
       = Some metadata).
Proof.
  split_and!.
  - unfold hasArtifacts. rewrite !orb_true_iff. split.
    + intros [[H|H]|H];
        [destruct (textId a) as [[|c s]|] eqn:E
        |destruct (imageId a) as [[|c s]|] eqn:E
        |destruct (voiceId a) as [[|c s]|] eqn:E]; try done;
        exists (c :: s); split; auto.
    + intros (id & Hne & [H|[H|H]]); destruct id; try done;
        rewrite H; auto.
  - reflexivity.
  - intros [|c s] metadata Hne; [done|]. unfold hasArtifacts. simpl.
    split_and!; [done | by rewrite orb_true_r | by rewrite orb_true_r].
  - done.
Qed.

End Artifacts.

Lemma image_slot_kept_witness :
  let a := calls clearArtifacts
             [SetImage (lit "img-1") 7%nat; SetText (lit "txt-1") 8%nat;
              SetVoice (lit "v-1") 9%nat] in
  imageId a = Some (lit "img-1") ∧ imageMetadata a = Some 7%nat.
Proof.
  intros a.
  destruct (image_slot_kept clearArtifacts (lit "img-1") 7%nat
              [SetText (lit "txt-1") 8%nat; SetVoice (lit "v-1") 9%nat])
    as (Hi & Hm & _).
  - by repeat constructor.
  - by split.
Defined.

Lemma hasArtifacts_iff_witness :
  hasArtifacts (setVoiceArtifact (lit "v-1") 9%nat clearArtifacts) = true.
Proof.
  destruct (hasArtifacts_iff (clearArtifacts (Any := nat)))
    as (_ & _ & H & _).
  destruct (H (lit "v-1") 9%nat) as (_ & _ & Hv); [|exact Hv].
  intros E. by apply (f_equal length) in E.
Defined.

End WizardContextFacts.

(* ===================================================================== *)
(** * Facts about uploading in app/wizard/image/page.tsx *)
(* ===================================================================== *)

Module ImageUploadFlowFacts.
Import JS ImageUploadFlow JSFacts.

Ltac run_handler :=
  cbv [step exec handle handleFileSelect handleDrop start settle timer
       catch finish finally simulate_start simulate_timer
       handleArtifactSelect_start fileFetched
       initializeProcessingSteps updateStepStatus spawn
       setUploading setResult setError setPreviewUrl setProcessingSteps
       setCurrentStep setArtifacts setUploads fetch
       setSelectedArtifact setShowArtifactSelector
       gets modify mbind mret M_bind M_ret snd fst
       uploading result error previewUrl processingSteps currentStep
       artifacts uploads nextUpload fetched
       selectedArtifact showArtifactSelector].

(** ** updateStepStatus *)

Lemma withStatus_length (stepId : jsstring) (status' : StepStatus)
    (prev : list ProcessingStep) :
  length (withStatus stepId status' prev) = length prev.
Proof. unfold withStatus. by rewrite length_fmap. Qed.

Lemma withStatus_ids (stepId : jsstring) (status' : StepStatus)
    (prev : list ProcessingStep) :
  id <$> withStatus stepId status' prev = id <$> prev.
Proof.
  unfold withStatus. rewrite <- list_fmap_compose.
  apply list_fmap_ext. intros i step _. simpl.
  by destruct (strictEq _ _).
Qed.

(** X17.  [updateStepStatus] changes nothing but the status of the steps
    with the given id: the list keeps its length, its order, its ids,
    titles and descriptions; every step with another id keeps its status;
    with an id that no step has, the list of steps is left as it is - yet
    for status 'processing' that id still becomes the current step. *)
Theorem update_step_status_touches_one (w : World) (stepId : jsstring)
    (status' : StepStatus) :
  let w' := exec (updateStepStatus stepId status') w in
  length (processingSteps w') = length (processingSteps w) ∧
  id <$> processingSteps w' = id <$> processingSteps w ∧
  title <$> processingSteps w' = title <$> processingSteps w ∧
  description <$> processingSteps w' = description <$> processingSteps w ∧
  (∀ i step, processingSteps w !! i = Some step →
     status <$> processingSteps w' !! i =
       Some (if decide (id step = stepId) then status' else status step)) ∧
  (stepId ∉ (id <$> processingSteps w) →
   processingSteps w' = processingSteps w) ∧
  currentStep w' =
    (if decide (status' = processing) then Some stepId else currentStep w).
Proof.
  intros w'.
  assert (processingSteps w' = withStatus stepId status' (processingSteps w))
    as Hsteps.
  { subst w'. destruct w. run_handler. by destruct (decide _). }
  rewrite Hsteps. split_and!.
  - apply withStatus_length.
  - apply withStatus_ids.
  - unfold withStatus. rewrite <- list_fmap_compose.
    apply list_fmap_ext. intros i step _. simpl. by destruct (strictEq _ _).
  - unfold withStatus. rewrite <- list_fmap_compose.
    apply list_fmap_ext. intros i step _. simpl. by destruct (strictEq _ _).
  - intros i step Hi. unfold withStatus. rewrite list_lookup_fmap, Hi.
    simpl. f_equal. unfold strictEq.
    destruct (decide (id step = stepId)) as [E|E].
    + by rewrite bool_decide_eq_true_2.
    + by rewrite bool_decide_eq_false_2.
  - intros Hno. unfold withStatus.
    rewrite <- (list_fmap_id (processingSteps w)) at 2.
    apply list_fmap_ext. intros i step Hi. simpl.
    destruct (strictEq (id step) stepId) eqn:E; [|done].
    apply strictEq_iff in E. destruct Hno.
    apply list_elem_of_fmap. exists step. split; [done|].
    by eapply list_elem_of_lookup_2.
  - subst w'. destruct w. run_handler. by destruct (decide _).
Qed.

(** ** The simulation *)

Lemma simulate_timer_steps (w : World) (k : nat) :
  processingSteps (exec (simulate_timer k) w) =
  (if decide (S k < length delays)
   then withStatus (stepId (S k)) processing
   else λ l, l) (withStatus (stepId k) completed (processingSteps w)).
Proof. destruct w. run_handler. simpl. by destruct (decide (S k < _)). Qed.

Lemma six_steps (l : list ProcessingStep) :
  id <$> l = id <$> steps →
  ∃ s0 s1 s2 s3 s4 s5, l = [s0; s1; s2; s3; s4; s5].
Proof.
  intros H. apply (f_equal length) in H. rewrite !length_fmap in H.
  do 6 (destruct l as [|? l]; [done|]). destruct l; [|done]. eauto 10.
Qed.

(** One timer moves the steps from the picture for [k] timers to the
    picture for [k + 1]. *)
Lemma simulate_timer_progress (w : World) (k : nat) :
  k < length delays →
  id <$> processingSteps w = id <$> steps →
  status <$> processingSteps w = progressOf k →
  status <$> processingSteps (exec (simulate_timer k) w)
    = progressOf (S k).
Proof.
  intros Hk Hid Hst. rewrite simulate_timer_steps.
  destruct (six_steps _ Hid) as (s0 & s1 & s2 & s3 & s4 & s5 & Hl).
  rewrite Hl in *. clear Hl.
  destruct s0, s1, s2, s3, s4, s5. simpl in Hid, Hst. simplify_eq.
  do 6 (destruct k as [|k];
        [vm_compute in Hst; simplify_eq; by vm_compute|]).
  simpl in Hk. lia.
Qed.

(** ** What a timer and a settlement do *)

Lemma timer_effect (w : World) (u : nat) (up : Upload) :
  uploads w !! u = Some up → fired up < length delays →
  let w' := step w (TimerFired u) in
  let finishing :=
    match request up with
    | Holding _ => bool_decide (S (fired up) = length delays)
    | _ => false
    end in
  processingSteps w' = processingSteps (exec (simulate_timer (fired up)) w) ∧
  uploads w' !! u =
    Some {| source := source up; capturedStep := capturedStep up;
            fired := S (fired up);
            request := if finishing then Returned else request up |} ∧
  (∀ u', u' ≠ u → uploads w' !! u' = uploads w !! u') ∧
  nextUpload w' = nextUpload w ∧ fetched w' = fetched w ∧
  (finishing = false →
   uploading w' = uploading w ∧ result w' = result w ∧
   error w' = error w ∧ previewUrl w' = previewUrl w ∧
   artifacts w' = artifacts w) ∧
  (∀ data, request up = Holding data → S (fired up) = length delays →
     w' = exec (finish u data)
            (exec (setUploads (<[u := {| source := source up;
                                         capturedStep := capturedStep up;
                                         fired := S (fired up);
                                         request := request up |}]>))
               (exec (simulate_timer (fired up)) w))).
Proof.
  intros Hu Hk. destruct w as [? ? ? ? l cs a ups next f ? ?].
  simpl in Hu. intros w' finishing. subst w' finishing.
  run_handler. rewrite Hu.
  destruct (decide (fired up < length delays)) as [_|]; [|lia].
  destruct (decide (S (fired up) < length delays)) as [Hn|Hn];
    simpl;
    (destruct (request up) as [|data| |artifact] eqn:Hr;
     [|destruct (decide (S (fired up) = length delays)) as [E|E];
       [rewrite bool_decide_eq_true_2 by done
       |rewrite bool_decide_eq_false_2 by done]| |]);
    simpl; split_and!; try done; try (by simplify_map_eq);
    try (intros; by simplify_map_eq).
Qed.

Lemma timer_spent (w : World) (u : nat) :
  (∀ up, uploads w !! u = Some up → fired up = length delays) →
  step w (TimerFired u) = w.
Proof.
  intros H. destruct w as [? ? ? ? l cs a ups next f ? ?]. simpl in H.
  run_handler. destruct (ups !! u) as [up|] eqn:E; [|done].
  rewrite (H up eq_refl).
  by destruct (decide (length delays < length delays)); [lia|].
Qed.

Lemma settled_already (w : World) (u : nat) (r : Settled) :
  (∀ up, uploads w !! u = Some up → request up ≠ Awaiting) →
  step w (RequestSettled u r) = w.
Proof.
  intros H. destruct w as [? ? ? ? l cs a ups next f ? ?]. simpl in H.
  run_handler. destruct (ups !! u) as [up|] eqn:E; [|done].
  specialize (H up eq_refl). by destruct (request up).
Qed.

(** The message the [catch] block receives, [None] when the [try] block
    does not throw. *)
Lemma settle_failure (w : World) (u : nat) (up : Upload) (r : Settled)
    (message : jsstring) :
  uploads w !! u = Some up → request up = Awaiting →
  (r = Rejected message ∨ r = NotOk (inl message) ∨
   r = Ok (inl message) ∨
   ∃ detail, r = NotOk (inr detail) ∧
             message = or_else detail (failureText (source up))) →
  step w (RequestSettled u r) = exec (catch u up message) w.
Proof.
  intros Hu Hr Hcase. destruct w as [? ? ? ? l cs a ups next f ? ?].
  simpl in Hu. run_handler. rewrite Hu, Hr.
  destruct Hcase as [-> | [-> | [-> | (detail & -> & ->)]]]; reflexivity.
Qed.

Lemma settle_data (w : World) (u : nat) (up : Upload)
    (data : ImageUploadPage.ImageUploadResponse) :
  uploads w !! u = Some up → request up = Awaiting →
  step w (RequestSettled u (Ok (inr data))) =
  if decide (fired up = length delays) then exec (finish u data) w
  else exec (setUploads (<[u := {| source := source up;
                                   capturedStep := capturedStep up;
                                   fired := fired up;
                                   request := Holding data |}]>)) w.
Proof.
  intros Hu Hr. destruct w as [? ? ? ? l cs a ups next f ? ?].
  simpl in Hu. run_handler. rewrite Hu, Hr. by destruct (decide _).
Qed.

Lemma finish_effect (w : World) (u : nat) (up : Upload)
    (data : ImageUploadPage.ImageUploadResponse) :
  uploads w !! u = Some up →
  let w' := exec (finish u data) w in
  result w' = Some data ∧
  previewUrl w' = Some (lit "http://localhost:8000"
                          ++ ImageUploadPage.files_face_ref data) ∧
  artifacts w' =
    WizardContext.setImageArtifact (ImageUploadPage.image_id data)
      (metadataOf data) (artifacts w) ∧
  uploading w' = false ∧ currentStep w' = None ∧
  error w' = error w ∧ processingSteps w' = processingSteps w ∧
  fetched w' = fetched w ∧ nextUpload w' = nextUpload w ∧
  uploads w' !! u = Some (returned up) ∧
  (∀ u', u' ≠ u → uploads w' !! u' = uploads w !! u').
Proof.
  intros Hu. destruct w as [? ? ? ? l cs a ups next f ? ?]. simpl in Hu.
  intros w'. subst w'. run_handler. simpl.
  split_and!; try done; try (by simplify_map_eq);
    try (intros; by simplify_map_eq).
Qed.

Lemma catch_effect (w : World) (u : nat) (up : Upload)
    (message : jsstring) :
  uploads w !! u = Some up →
  let w' := exec (catch u up message) w in
  error w' = Some message ∧
  uploading w' = false ∧ currentStep w' = None ∧
  result w' = result w ∧ previewUrl w' = previewUrl w ∧
  artifacts w' = artifacts w ∧
  fetched w' = fetched w ∧ nextUpload w' = nextUpload w ∧
  uploads w' !! u = Some (returned up) ∧
  (∀ u', u' ≠ u → uploads w' !! u' = uploads w !! u') ∧
  processingSteps w' =
    match capturedStep up with
    | Some captured =>
        if truthy captured
        then withStatus captured error_ (processingSteps w)
        else processingSteps w
    | None => processingSteps w
    end.
Proof.
  intros Hu. destruct w as [? ? ? ? l cs a ups next f ? ?]. simpl in Hu.
  intros w'. subst w'. run_handler.
  destruct (capturedStep up) as [[|c captured]|]; simpl;
    split_and!; try done; try (by simplify_map_eq);
    try (intros; by simplify_map_eq).
Qed.

Lemma holding_effect (w : World) (u : nat) (up' : Upload) :
  let w' := exec (setUploads (<[u := up']>)) w in
  uploads w' !! u = Some up' ∧
  (∀ u', u' ≠ u → uploads w' !! u' = uploads w !! u') ∧
  uploading w' = uploading w ∧ result w' = result w ∧
  error w' = error w ∧ processingSteps w' = processingSteps w.
Proof.
  destruct w. simpl. split_and!; try done; try (by simplify_map_eq).
  intros. by simplify_map_eq.
Qed.

Lemma simulate_timer_ids (w : World) (k : nat) :
  id <$> processingSteps (exec (simulate_timer k) w)
    = id <$> processingSteps w.
Proof.
  rewrite simulate_timer_steps.
  destruct (decide _); by rewrite ?withStatus_ids.
Qed.

(** ** One call running alone *)

Lemma holding_keeps (w : World) (u : nat) (up' : Upload) :
  let w' := exec (setUploads (<[u := up']>)) w in
  previewUrl w' = previewUrl w ∧ artifacts w' = artifacts w ∧
  fetched w' = fetched w.
Proof. by destruct w. Qed.

Lemma timer_finishes (w : World) (u : nat) (up : Upload)
    (data : ImageUploadPage.ImageUploadResponse) :
  uploads w !! u = Some up → request up = Holding data →
  S (fired up) = length delays →
  let w' := step w (TimerFired u) in
  result w' = Some data ∧ previewUrl w' = Some (servedUrl data) ∧
  artifacts w' =
    WizardContext.setImageArtifact (ImageUploadPage.image_id data)
      (metadataOf data) (artifacts w) ∧
  uploading w' = false ∧ error w' = error w.
Proof.
  intros Hu Hr Hk. destruct w as [? ? ? ? l cs a ups next f ? ?].
  simpl in Hu. intros w'. subst w'. run_handler. rewrite Hu.
  destruct (decide (fired up < length delays)) as [_|]; [|lia].
  destruct (decide (S (fired up) < length delays)) as [Hn|Hn]; [lia|].
  rewrite Hr.
  destruct (decide (S (fired up) = length delays)) as [_|]; [|done].
  done.
Qed.

Lemma start_flight (w : World) (src : Source) (r : Request) :
  quiet w → currentStep w = None →
  flight (result w) (previewUrl w) (artifacts w) (nextUpload w) src
    NoAnswer 0 (exec (start src r) w).
Proof.
  intros Hq Hcs. destruct w as [? ? ? ? l cs a ups next f ? ?].
  simpl in Hcs. subst cs. unfold flight. run_handler. simpl.
  eexists. split_and!.
  - apply lookup_insert_eq.
  - reflexivity.
  - reflexivity.
  - reflexivity.
  - lia.
  - by vm_compute.
  - by vm_compute.
  - intros u' up' Hne Hu'. rewrite lookup_insert_ne in Hu' by done.
    destruct (Hq u' up' Hu') as (? & ? & _). done.
  - done.
  - done.
  - done.
  - done.
  - done.
  - done.
Qed.

Lemma file_selected_step (w : World) (file : File) (url : jsstring) :
  step w (FileSelected (Some file) url) =
  exec (start uploadFile (uploadRequest file))
       (exec (setPreviewUrl (Some url)) w).
Proof. destruct w. run_handler. reflexivity. Qed.

Lemma dropped_step (w : World) (file : File) (files : list File)
    (url : jsstring) :
  startsWith (lit "image/") (file_type file) = true →
  step w (Dropped (file :: files) url) =
  step w (FileSelected (Some file) url).
Proof. intros H. unfold step, handle, handleDrop. by rewrite H. Qed.

Lemma start_preview (w : World) (src : Source) (r : Request) :
  previewUrl (exec (start src r) w) = previewUrl w.
Proof. by destruct w. Qed.

Lemma starts_flight (w : World) (e : Event) :
  quiet w → currentStep w = None → starts e = true →
  flight (result w) (previewUrl (step w e)) (artifacts w) (nextUpload w)
    (sourceOf e) NoAnswer 0 (step w e).
Proof.
  intros Hq Hcs He.
  assert (∀ file url,
    flight (result w) (previewUrl (step w (FileSelected (Some file) url)))
      (artifacts w) (nextUpload w) uploadFile NoAnswer 0
      (step w (FileSelected (Some file) url))) as Hfile.
  { intros file url. rewrite file_selected_step, start_preview.
    pose proof (start_flight (exec (setPreviewUrl (Some url)) w) uploadFile
                  (uploadRequest file)) as H.
    destruct w. apply H; done. }
  destruct e as [[file|] url|[|file files] url| | | | | |];
    try discriminate He.
  - apply Hfile.
  - simpl in He. rewrite dropped_step by done. apply Hfile.
  - unfold step, handle. fold (exec (start createSampleImage sampleRequest) w).
    rewrite start_preview. by apply start_flight.
Qed.

Lemma flight_step (old : option ImageUploadPage.ImageUploadResponse)
    (shown : option jsstring)
    (arts : WizardContext.UploadedArtifacts ImageMetadata)
    (u : nat) (src : Source) (a : Answer) (k : nat) (w : World)
    (e : Event) :
  flight old shown arts u src a k w → background e = true →
  flight old shown arts u src (hears u src a e) (tick u k e) (step w e).
Proof.
  intros (up & Hu & Hsrc & Hcap & Hfired & Hk & Hst & Hid & Hoth & Ha) Hbg.
  assert (flight old shown arts u src a k w) as Hflight
    by (exists up; by split_and!).
  destruct e as [| | |u0|u0 r| | |]; try discriminate Hbg.
  - (* a timer *)
    change (hears u src a (TimerFired u0)) with a. unfold tick.
    destruct (decide (u0 = u ∧ k < length delays)) as [[-> Hlt]|Hno].
    2: { rewrite timer_spent; [done|]. intros up' Hu'.
         destruct (decide (u0 = u)) as [->|Hne].
         - rewrite Hu in Hu'. injection Hu' as <-.
           destruct (decide (k < length delays)); [by destruct Hno|lia].
         - by destruct (Hoth u0 up' Hne Hu'). }
    subst k.
    destruct (timer_effect w u up Hu Hlt)
      as (Hsteps & Hup & Hothers & _ & _ & Hsame & _).
    eexists. split_and!.
    + exact Hup.
    + done.
    + done.
    + done.
    + lia.
    + rewrite Hsteps. by apply simulate_timer_progress.
    + by rewrite Hsteps, simulate_timer_ids.
    + intros u' up' Hne Hu'. rewrite Hothers in Hu' by done. by eapply Hoth.
    + cbn [request]. destruct a as [|message|data].
      * destruct Ha as (Hr & ? & ? & ? & ? & ?). rewrite Hr in *.
        destruct (Hsame eq_refl) as (-> & -> & -> & -> & ->). done.
      * destruct Ha as (Hr & ? & ? & ? & ? & ?). rewrite Hr in *.
        destruct (Hsame eq_refl) as (-> & -> & -> & -> & ->). done.
      * destruct Ha as [Herr Ha].
        destruct (decide (fired up = length delays)) as [|_]; [lia|].
        destruct Ha as (Hr & ? & ? & ? & ?). rewrite Hr in *.
        destruct (decide (S (fired up) = length delays)) as [E|E].
        -- rewrite bool_decide_eq_true_2 by done.
           destruct (timer_finishes w u up data Hu Hr E)
             as (-> & -> & -> & -> & ->).
           split_and!; try done. congruence.
        -- rewrite bool_decide_eq_false_2 in * by done.
           destruct (Hsame eq_refl) as (-> & -> & -> & -> & ->). done.
  - (* a settlement *)
    change (tick u k (RequestSettled u0 r)) with k.
    destruct (decide (u0 = u)) as [->|Hne].
    2: { assert (hears u src a (RequestSettled u0 r) = a) as ->.
         { destruct a; simpl; [|done..]. by rewrite decide_False. }
         rewrite settled_already; [done|].
         intros up' Hu' E; destruct (Hoth u0 up' Hne Hu'); congruence. }
    destruct a as [|message'|data'].
    2: { change (hears u src (Failure message') (RequestSettled u r))
           with (Failure message').
         rewrite settled_already; [done|]. intros up' Hu'.
         rewrite Hu in Hu'. injection Hu' as <-.
         destruct Ha as [Hr _]. congruence. }
    2: { change (hears u src (Success data') (RequestSettled u r))
           with (Success data').
         rewrite settled_already; [done|]. intros up' Hu'.
         rewrite Hu in Hu'. injection Hu' as <-. destruct Ha as [_ Ha].
         destruct (decide _); destruct Ha as [Hr _]; congruence. }
    destruct Ha as (Hr & Hupl & Herr & Hres & Hshown & Harts).
    assert (hears u src NoAnswer (RequestSettled u r) = answerOf src r)
      as -> by (simpl; by rewrite decide_True).
    assert (∀ message,
              flight old shown arts u src (Failure message) k
                (exec (catch u up message) w)) as Hcatch.
    { intros message.
      destruct (catch_effect w u up message Hu)
        as (Herr' & Hupl' & _ & Hres' & Hshown' & Harts' & _ & _ & Hlook
            & Hothers & Hsteps).
      rewrite Hcap in Hsteps.
      exists (returned up).
      split_and!; cbn [returned request];
        [done | done | done | done | done
        | by rewrite Hsteps | by rewrite Hsteps
        | intros u' up' Hne Hu'; rewrite Hothers in Hu' by done;
          by eapply Hoth
        | congruence ..]. }
    destruct r as [message|[message|detail]|[message|data]].
    + rewrite (settle_failure w u up _ message) by auto. apply Hcatch.
    + rewrite (settle_failure w u up _ message) by auto. apply Hcatch.
    + rewrite (settle_failure w u up _
                 (or_else detail (failureText (source up)))) by eauto 10.
      rewrite Hsrc. apply Hcatch.
    + rewrite (settle_failure w u up _ message) by auto. apply Hcatch.
    + rewrite (settle_data w u up data) by done. cbn [answerOf].
      destruct (decide (fired up = length delays)) as [E|E].
      * destruct (finish_effect w u up data Hu)
          as (Hres' & Hshown' & Harts' & Hupl' & _ & Herr' & Hsteps & _ & _
              & Hlook & Hothers).
        exists (returned up).
        split_and!;
          [done | done | done | done | done
          | by rewrite Hsteps | by rewrite Hsteps
          | intros u' up' Hne Hu'; rewrite Hothers in Hu' by done;
            by eapply Hoth
          | congruence
          | rewrite decide_True by congruence; cbn [returned request];
            unfold servedUrl; split_and!; congruence].
      * destruct (holding_effect w u
                    {| source := source up; capturedStep := capturedStep up;
                       fired := fired up; request := Holding data |})
          as (Hlook & Hothers & Hupl' & Hres' & Herr' & Hsteps).
        destruct (holding_keeps w u
                    {| source := source up; capturedStep := capturedStep up;
                       fired := fired up; request := Holding data |})
          as (Hshown' & Harts' & _).
        eexists.
        split_and!;
          [exact Hlook | done | done | done | done
          | by rewrite Hsteps | by rewrite Hsteps
          | intros u' up' Hne Hu'; rewrite Hothers in Hu' by done;
            by eapply Hoth
          | congruence
          | rewrite decide_False by congruence; cbn [request];
            split_and!; congruence].
Qed.

Lemma flight_run (old : option ImageUploadPage.ImageUploadResponse)
    (shown : option jsstring)
    (arts : WizardContext.UploadedArtifacts ImageMetadata)
    (u : nat) (src : Source) (es : list Event) :
  ∀ (a : Answer) (k : nat) (w : World),
  flight old shown arts u src a k w →
  Forall (λ e, background e = true) es →
  flight old shown arts u src (foldl (hears u src) a es)
    (foldl (tick u) k es) (run w es).
Proof.
  induction es as [|e es IH]; intros a k w Hw Hes; [done|].
  apply Forall_cons in Hes as [He Hes]. simpl.
  apply IH; [by apply flight_step | done].
Qed.

Lemma flight_solo (w : World) (e : Event) (es : list Event) :
  quiet w → currentStep w = None → starts e = true →
  Forall (λ e, background e = true) es →
  flight (result w) (previewUrl (step w e)) (artifacts w) (nextUpload w)
    (sourceOf e) (heard (nextUpload w) (sourceOf e) es)
    (timersFired (nextUpload w) es) (run (step w e) es).
Proof.
  intros Hq Hcs He Hes. apply flight_run; [|done]. by apply starts_flight.
Qed.

Lemma progressOf_no_error (k : nat) : error_ ∉ progressOf k.
Proof.
  unfold progressOf. rewrite not_elem_of_app. split.
  - by intros [? _]%elem_of_replicate.
  - destruct (decide _); [|apply not_elem_of_nil].
    rewrite not_elem_of_cons. split; [done|].
    by intros [? _]%elem_of_replicate.
Qed.

(** X18.  One upload running alone shows an orderly progress, whatever
    the server answers and however timers and the answer interleave.
    Started when nothing is in flight and no step is current, with [k] of
    the six simulation timers fired the steps read: [k] completed, the
    next one processing, the rest pending - never 'error', not even when
    the request has failed.  The result on screen is the one from before
    until all six steps are completed; as long as the page says
    'uploading' no error is shown either, and it says so at least until
    the request settles. *)
Theorem solo_upload_progress (w : World) (e : Event) (es : list Event) :
  quiet w → currentStep w = None → starts e = true →
  Forall (λ e, background e = true) es →
  let w' := run (step w e) es in
  let k := timersFired (nextUpload w) es in
  k ≤ length delays ∧
  status <$> processingSteps w' = progressOf k ∧
  id <$> processingSteps w' = id <$> steps ∧
  (error_ ∉ status <$> processingSteps w') ∧
  (k < length delays → result w' = result w) ∧
  (uploading w' = true → result w' = result w ∧ error w' = None) ∧
  (heard (nextUpload w) (sourceOf e) es = NoAnswer → uploading w' = true).
Proof.
  intros Hq Hcs He Hes w' k.
  destruct (flight_solo w e es Hq Hcs He Hes)
    as (up & Hu & Hsrc & Hcap & Hfired & Hk & Hst & Hid & Hoth & Ha).
  fold w' in Hu, Hst, Hid, Ha. fold k in Hfired, Hk, Hst, Ha.
  split_and!; try done.
  - rewrite Hst. apply progressOf_no_error.
  - intros Hlt. destruct (heard _ _ _).
    + by destruct Ha as (_ & _ & _ & ? & _).
    + by destruct Ha as (_ & _ & _ & ? & _).
    + destruct Ha as [_ Ha]. destruct (decide _); [lia|].
      by destruct Ha as (_ & _ & ? & _).
  - intros Hup. destruct (heard _ _ _).
    + by destruct Ha as (_ & _ & ? & ? & _).
    + destruct Ha as (_ & ? & _). congruence.
    + destruct Ha as [? Ha]. destruct (decide _).
      * destruct Ha as (_ & ? & _). congruence.
      * by destruct Ha as (_ & _ & ? & _).
  - intros E. rewrite E in Ha. by destruct Ha as (_ & ? & _).
Qed.

Lemma solo_upload_progress_witness :
  let es := [TimerFired 0; RequestSettled 0 (Rejected (lit "Failed to fetch"));
             TimerFired 0] in
  let w' := run (step mount SampleClicked) es in
  status <$> processingSteps w' =
    [completed; completed; processing; pending; pending; pending] ∧
  (error_ ∉ status <$> processingSteps w') ∧
  result w' = None.
Proof.
  intros es w'.
  assert (quiet mount) as Hq by (intros u up Hu; by vm_compute in Hu).
  assert (Forall (λ e, background e = true) es) as Hes
    by (subst es; by repeat constructor).
  destruct (solo_upload_progress mount SampleClicked es Hq eq_refl eq_refl Hes)
    as (_ & Hst & _ & Hno & Hres & _).
  split_and!.
  - exact Hst.
  - exact Hno.
  - apply Hres. vm_compute. lia.
Defined.

(** X19.  A failed upload running alone: once the request of the call
    has settled with a failure - [fetch] rejected, the body could not be
    read, or the response was not ok, the message then being
    [errorData.detail] or, without a detail, 'Upload failed' or 'Sample
    creation failed' - the page stops 'uploading' and shows that message;
    the result, the preview and the wizard's artifacts stay as they were,
    a later answer changes nothing, and the simulation goes on marking
    steps completed. *)
Theorem solo_upload_failure (w : World) (e : Event) (es : list Event)
    (message : jsstring) :
  quiet w → currentStep w = None → starts e = true →
  Forall (λ e, background e = true) es →
  heard (nextUpload w) (sourceOf e) es = Failure message →
  let w' := run (step w e) es in
  uploading w' = false ∧ error w' = Some message ∧
  result w' = result w ∧ previewUrl w' = previewUrl (step w e) ∧
  artifacts w' = artifacts w ∧
  status <$> processingSteps w' =
    progressOf (timersFired (nextUpload w) es).
Proof.
  intros Hq Hcs He Hes Hheard w'.
  destruct (flight_solo w e es Hq Hcs He Hes)
    as (up & Hu & Hsrc & Hcap & Hfired & Hk & Hst & Hid & Hoth & Ha).
  rewrite Hheard in Ha. by destruct Ha as (_ & ? & ? & ? & ? & ?).
Qed.

Lemma solo_upload_failure_witness :
  let es := [TimerFired 0; RequestSettled 0 (NotOk (inr None));
             RequestSettled 0 (Ok (inr Samples.uploaded))] in
  let w' := run (step mount (FileSelected (Some portrait) (lit "blob:1"))) es in
  error w' = Some (lit "Upload failed") ∧ result w' = None ∧
  previewUrl w' = Some (lit "blob:1") ∧
  status <$> processingSteps w' =
    [completed; processing; pending; pending; pending; pending].
Proof.
  intros es w'.
  assert (quiet mount) as Hq by (intros u up Hu; by vm_compute in Hu).
  assert (Forall (λ e, background e = true) es) as Hes
    by (subst es; by repeat constructor).
  destruct (solo_upload_failure mount
              (FileSelected (Some portrait) (lit "blob:1")) es
              (lit "Upload failed") Hq eq_refl eq_refl Hes)
    as (_ & Herr & Hres & Hshown & _ & Hst).
  { by vm_compute. }
  split_and!.
  - exact Herr.
  - exact Hres.
  - unfold w'. rewrite Hshown. by vm_compute.
  - exact Hst.
Defined.

(** X20.  A successful upload running alone waits for the simulation:
    once the request has been answered with [data], the page keeps
    'uploading' with the old result, preview and artifacts until the
    sixth timer has fired; from then on it shows [data], the preview at
    'http://localhost:8000' + [data.files.face_ref], all six steps
    completed, and the wizard context holds the image artifact
    [data.image_id] with its metadata. *)
Theorem solo_upload_success (w : World) (e : Event) (es : list Event)
    (data : ImageUploadPage.ImageUploadResponse) :
  quiet w → currentStep w = None → starts e = true →
  Forall (λ e, background e = true) es →
  heard (nextUpload w) (sourceOf e) es = Success data →
  let w' := run (step w e) es in
  error w' = None ∧
  if decide (timersFired (nextUpload w) es = length delays) then
    uploading w' = false ∧ result w' = Some data ∧
    previewUrl w' = Some (servedUrl data) ∧
    artifacts w' =
      WizardContext.setImageArtifact (ImageUploadPage.image_id data)
        (metadataOf data) (artifacts w) ∧
    status <$> processingSteps w' = replicate (length delays) completed
  else
    uploading w' = true ∧ result w' = result w ∧
    previewUrl w' = previewUrl (step w e) ∧ artifacts w' = artifacts w.
Proof.
  intros Hq Hcs He Hes Hheard w'.
  destruct (flight_solo w e es Hq Hcs He Hes)
    as (up & Hu & Hsrc & Hcap & Hfired & Hk & Hst & Hid & Hoth & Ha).
  rewrite Hheard in Ha. destruct Ha as [Herr Ha]. split; [done|].
  destruct (decide _) as [E|E].
  - destruct Ha as (_ & ? & ? & ? & ?). split_and!; try done.
    subst w'. rewrite Hst, E. by vm_compute.
  - by destruct Ha as (_ & ? & ? & ? & ?).
Qed.

Lemma solo_upload_success_witness :
  let upload := FileSelected (Some portrait) (lit "blob:1") in
  let early := [TimerFired 0; RequestSettled 0 (Ok (inr Samples.uploaded));
                TimerFired 0] in
  let late := early ++ replicate 4 (TimerFired 0) in
  (result (run (step mount upload) early) = None ∧
   previewUrl (run (step mount upload) early) = Some (lit "blob:1")) ∧
  (result (run (step mount upload) late) = Some Samples.uploaded ∧
   previewUrl (run (step mount upload) late) =
     Some (lit "http://localhost:8000/data/portraits/test_face.png")).
Proof.
  intros upload early late.
  assert (quiet mount) as Hq by (intros u up Hu; by vm_compute in Hu).
  split.
  - destruct (solo_upload_success mount upload early Samples.uploaded
                Hq eq_refl eq_refl) as [_ H].
    { subst early. by repeat constructor. }
    { by vm_compute. }
    destruct (decide _) as [E|_]; [by vm_compute in E|].
    destruct H as (_ & Hres & Hshown & _). split; [exact Hres|].
    rewrite Hshown. by vm_compute.
  - destruct (solo_upload_success mount upload late Samples.uploaded
                Hq eq_refl eq_refl) as [_ H].
    { subst late early. by repeat constructor. }
    { by vm_compute. }
    destruct (decide _) as [_|E]; [|by destruct E; vm_compute].
    destruct H as (_ & Hres & Hshown & _). split; [exact Hres|].
    rewrite Hshown. by vm_compute.
Defined.

(** ** The requests sent, and calls that overlap *)


(** A drop whose first file is not an image only sets an error. *)
Lemma drop_of_other_file (w : World) (file : File) (files : list File)
    (url : jsstring) :
  startsWith (lit "image/") (file_type file) = false →
  let w' := step w (Dropped (file :: files) url) in
  error w' = Some (lit "Please select an image file") ∧
  fetched w' = fetched w ∧ uploads w' = uploads w ∧
  uploading w' = uploading w ∧ previewUrl w' = previewUrl w ∧
  result w' = result w ∧ processingSteps w' = processingSteps w ∧
  currentStep w' = currentStep w ∧ artifacts w' = artifacts w ∧
  nextUpload w' = nextUpload w.
Proof.
  intros H w'. subst w'. destruct w. run_handler. by rewrite H.
Qed.


Lemma start_uploads (w : World) (src : Source) (r : Request) :
  let w' := exec (start src r) w in
  uploads w' !! nextUpload w =
    Some {| source := src; capturedStep := currentStep w;
            fired := 0; request := Awaiting |} ∧
  (∀ u', u' ≠ nextUpload w → uploads w' !! u' = uploads w !! u') ∧
  nextUpload w' = S (nextUpload w).
Proof.
  destruct w as [? ? ? ? l cs a ups next f ? ?]. simpl. split_and!.
  - apply lookup_insert_eq.
  - intros u' Hne. by apply lookup_insert_ne.
  - done.
Qed.

Lemma starts_uploads (w : World) (e : Event) :
  starts e = true →
  let w' := step w e in
  uploads w' !! nextUpload w =
    Some {| source := sourceOf e; capturedStep := currentStep w;
            fired := 0; request := Awaiting |} ∧
  (∀ u', u' ≠ nextUpload w → uploads w' !! u' = uploads w !! u') ∧
  nextUpload w' = S (nextUpload w).
Proof.
  intros He.
  assert (∀ file url,
    let w' := step w (FileSelected (Some file) url) in
    uploads w' !! nextUpload w =
      Some {| source := uploadFile; capturedStep := currentStep w;
              fired := 0; request := Awaiting |} ∧
    (∀ u', u' ≠ nextUpload w → uploads w' !! u' = uploads w !! u') ∧
    nextUpload w' = S (nextUpload w)) as Hfile.
  { intros file url. cbv zeta. rewrite file_selected_step.
    pose proof (start_uploads (exec (setPreviewUrl (Some url)) w) uploadFile
                  (uploadRequest file)) as H.
    destruct w. exact H. }
  destruct e as [[file|] url|[|file files] url| | | | | |];
    try discriminate He.
  - apply Hfile.
  - simpl in He. cbv zeta. rewrite dropped_step by done. apply Hfile.
  - apply start_uploads.
Qed.

Lemma timer_others (w : World) (u : nat) :
  let w' := step w (TimerFired u) in
  (∀ u', u' ≠ u → uploads w' !! u' = uploads w !! u') ∧
  nextUpload w' = nextUpload w.
Proof.
  destruct w as [? ? ? ? l cs a ups next f ? ?]. cbv zeta. run_handler.
  destruct (ups !! u) as [up|]; [|done].
  destruct (decide (fired up < _)); [|done].
  destruct (decide (S (fired up) < _)); simpl;
    (destruct (request up) as [|data| |artifact];
     [|destruct (decide (S (fired up) = _))| |]);
    simpl; (split; [|done]); intros; by simplify_map_eq.
Qed.

Lemma timer_awaiting (w : World) (u : nat) (up : Upload) :
  uploads w !! u = Some up → request up = Awaiting →
  ∃ up', uploads (step w (TimerFired u)) !! u = Some up' ∧
         source up' = source up ∧ capturedStep up' = capturedStep up ∧
         request up' = Awaiting.
Proof.
  intros Hu Hr. destruct w as [? ? ? ? l cs a ups next f ? ?]. simpl in Hu.
  run_handler. rewrite Hu.
  destruct (decide (fired up < _)); [|by exists up].
  rewrite Hr.
  destruct (decide (S (fired up) < _)); simpl;
    (eexists; split; [by simplify_map_eq|done]).
Qed.

Lemma settled_others (w : World) (u : nat) (r : Settled) :
  let w' := step w (RequestSettled u r) in
  (∀ u', u' ≠ u → uploads w' !! u' = uploads w !! u') ∧
  nextUpload w' = nextUpload w.
Proof.
  destruct w as [? ? ? ? l cs a ups next f ? ?]. cbv zeta. run_handler.
  destruct (ups !! u) as [up|]; [|done].
  destruct (request up); [|done..].
  destruct r as [m|[m|d]|[m|data]]; simpl;
    try (destruct (capturedStep up) as [[|]|]; simpl;
         (split; [|done]); intros; by simplify_map_eq).
  destruct (decide _); simpl; (split; [|done]); intros; by simplify_map_eq.
Qed.

Lemma artifact_uploads (w : World) (artifact : Artifact) :
  let w' := step w (ArtifactSelected artifact) in
  uploads w' !! nextUpload w =
    Some {| source := handleArtifactSelect; capturedStep := currentStep w;
            fired := 0; request := Fetching artifact |} ∧
  (∀ u', u' ≠ nextUpload w → uploads w' !! u' = uploads w !! u') ∧
  nextUpload w' = S (nextUpload w).
Proof.
  destruct w as [? ? ? ? l cs a ups next f ? ?]. simpl. split_and!.
  - apply lookup_insert_eq.
  - intros u' Hne. by apply lookup_insert_ne.
  - done.
Qed.

Lemma fetched_others (w : World) (u : nat) (r : Fetched) :
  let w' := step w (FileFetched u r) in
  (∀ u', u' ≠ u → uploads w' !! u' = uploads w !! u') ∧
  nextUpload w' = nextUpload w.
Proof.
  destruct w as [? ? ? ? l cs a ups next f ? ?]. cbv zeta. run_handler.
  destruct (ups !! u) as [up|]; [|done].
  destruct (request up); [done..|].
  destruct r as [m| |[m|blobType]]; simpl;
    try (destruct (capturedStep up) as [[|]|]; simpl);
    (split; [|done]); intros; by simplify_map_eq.
Qed.

Lemma fetched_idle (w : World) (u : nat) (r : Fetched) :
  (∀ up artifact, uploads w !! u = Some up →
                  request up ≠ Fetching artifact) →
  step w (FileFetched u r) = w.
Proof.
  intros H. destruct w as [? ? ? ? l cs a ups next f ? ?]. simpl in H.
  run_handler. destruct (ups !! u) as [up|] eqn:E; [|done].
  destruct (request up) as [|data| |artifact] eqn:Hr; try done.
  by destruct (H up artifact eq_refl).
Qed.








Lemma waiting_step (u : nat) (src : Source) (c : option jsstring)
    (w : World) (e : Event) :
  waiting u src c w → settles u e = false → waiting u src c (step w e).
Proof.
  intros [Hlt (up & Hu & Hsrc & Hcap & Hr)] Hs.
  assert (waiting u src c w) as Hw by (split; [done|by exists up]).
  destruct (starts e) eqn:He.
  { destruct (starts_uploads w e He) as (_ & Hothers & Hnext).
    split; [lia|]. exists up. rewrite Hothers by lia. done. }
  destruct e as [[file|] url|[|file files] url| |u0|u0 r| |artifact|u0 r];
    try discriminate He; try exact Hw.
  - simpl in He.
    destruct (drop_of_other_file w file files url He)
      as (_ & _ & Hups & _ & _ & _ & _ & _ & _ & Hnext).
    split; [lia|]. exists up. by rewrite Hups.
  - destruct (timer_others w u0) as [Hothers Hnext].
    split; [lia|]. destruct (decide (u0 = u)) as [->|Hne].
    + destruct (timer_awaiting w u up Hu Hr) as (up' & ? & ? & ? & ?).
      exists up'. split_and!; congruence.
    + exists up. by rewrite Hothers.
  - destruct (settled_others w u0 r) as [Hothers Hnext].
    simpl in Hs. apply bool_decide_eq_false in Hs.
    split; [lia|]. exists up. by rewrite Hothers.
  - destruct (artifact_uploads w artifact) as (_ & Hothers & Hnext).
    split; [lia|]. exists up. rewrite Hothers by lia. done.
  - destruct (decide (u0 = u)) as [->|Hne].
    + rewrite fetched_idle; [done|]. intros up0 artifact Hu0.
      rewrite Hu in Hu0. injection Hu0 as <-. congruence.
    + destruct (fetched_others w u0 r) as [Hothers Hnext].
      split; [lia|]. exists up. by rewrite Hothers.
Qed.

Lemma waiting_run (u : nat) (src : Source) (c : option jsstring)
    (es : list Event) :
  ∀ w, waiting u src c w → Forall (λ e, settles u e = false) es →
       waiting u src c (run w es).
Proof.
  induction es as [|e es IH]; intros w Hw Hes; [done|].
  apply Forall_cons in Hes as [He Hes]. simpl.
  apply IH; [by apply waiting_step | done].
Qed.

Lemma failure_cases (src : Source) (r : Settled) (message : jsstring) :
  answerOf src r = Failure message →
  r = Rejected message ∨ r = NotOk (inl message) ∨
  r = Ok (inl message) ∨
  ∃ detail, r = NotOk (inr detail) ∧
            message = or_else detail (failureText src).
Proof.
  destruct r as [m|[m|d]|[m|data]]; simpl; intros [= <-]; eauto 10.
Qed.

Lemma withStatus_hit (stepId : jsstring) (status' : StepStatus)
    (prev : list ProcessingStep) (s : ProcessingStep) :
  s ∈ withStatus stepId status' prev → id s = stepId → status s = status'.
Proof.
  unfold withStatus. intros (s' & -> & _)%list_elem_of_fmap.
  destruct (strictEq (id s') stepId) eqn:E; [done|].
  apply strictEq_false_iff in E. done.
Qed.

(** X22.  The step a failing call marks 'error' is the one that was
    current when the call started (the [currentStep] its closure
    captured), not the one in progress when it fails: whatever happens in
    between, short of the call's own request settling, a failure sets the
    error message, marks every step with the captured id 'error', clears
    'uploading' and the current step, and leaves the result alone. *)
Theorem failure_marks_captured_step (w : World) (e : Event)
    (es : list Event) (r : Settled) (message c : jsstring) :
  currentStep w = Some c → truthy c = true → starts e = true →
  Forall (λ e, settles (nextUpload w) e = false) es →
  answerOf (sourceOf e) r = Failure message →
  let before := run (step w e) es in
  let w' := step before (RequestSettled (nextUpload w) r) in
  error w' = Some message ∧ uploading w' = false ∧
  currentStep w' = None ∧ result w' = result before ∧
  processingSteps w' = withStatus c error_ (processingSteps before) ∧
  (∀ s, s ∈ processingSteps w' → id s = c → status s = error_).
Proof.
  intros Hcs Hc He Hes Hr before w'.
  assert (waiting (nextUpload w) (sourceOf e) (Some c) before)
    as [_ (up & Hu & Hsrc & Hcap & Hreq)].
  { apply waiting_run; [|done].
    destruct (starts_uploads w e He) as (Hlook & _ & Hnext).
    split; [lia|]. eexists. split; [exact Hlook|]. by rewrite Hcs. }
  assert (w' = exec (catch (nextUpload w) up message) before) as Hw'.
  { apply settle_failure; [done..|]. rewrite Hsrc.
    by apply failure_cases. }
  destruct (catch_effect before (nextUpload w) up message Hu)
    as (Herr & Hupl & Hcur & Hres & _ & _ & _ & _ & _ & _ & Hsteps).
  rewrite Hcap, Hc in Hsteps. rewrite <- Hw' in *.
  split_and!; try done.
  intros s Hs. rewrite Hsteps in Hs. by eapply withStatus_hit.
Qed.

Lemma failure_marks_captured_step_witness :
  let w := run mount [SampleClicked;
                      RequestSettled 0 (Rejected (lit "Failed to fetch"));
                      TimerFired 0] in
  let upload := FileSelected (Some portrait) (lit "blob:1") in
  let w' := step (run (step w upload) [])
              (RequestSettled (nextUpload w)
                 (NotOk (inr (Some (lit "No face detected"))))) in
  currentStep w = Some (lit "validation") ∧
  error w' = Some (lit "No face detected") ∧
  status <$> processingSteps w' =
    [processing; error_; pending; pending; pending; pending].
Proof.
  intros w upload w'. split; [by vm_compute|].
  destruct (failure_marks_captured_step w upload []
              (NotOk (inr (Some (lit "No face detected"))))
              (lit "No face detected") (lit "validation"))
    as (Herr & _ & _ & _ & Hsteps & _).
  - by vm_compute.
  - by vm_compute.
  - done.
  - constructor.
  - by vm_compute.
  - split; [exact Herr|]. unfold w'. rewrite Hsteps. by vm_compute.
Defined.

Lemma update_step_status_touches_one_witness :
  let w := step mount SampleClicked in
  let w' := exec (updateStepStatus (lit "resize") processing) w in
  status <$> processingSteps w' =
    [processing; pending; pending; pending; pending; pending] ∧
  currentStep w' = Some (lit "resize").
Proof.
  intros w w'.
  destruct (update_step_status_touches_one w (lit "resize") processing)
    as (_ & _ & _ & _ & _ & Hsame & Hcur).
  split.
  - fold w' in Hsame. rewrite Hsame; [by vm_compute|].
    assert (id <$> processingSteps w = fst <$> delays) as ->
      by (by vm_compute).
    unfold delays. simpl. rewrite !not_elem_of_cons.
    split_and!; try (intros E; vm_compute in E; discriminate).
    apply not_elem_of_nil.
  - exact Hcur.
Defined.

End ImageUploadFlowFacts.
